(** * HpBandSter master: the scheduling loop of [hpbandster/core/master.py]

    A shallow embedding of class [HpBandSter]: the constructor, [run],
    [adjust_queue_size], [job_callback], [_queue_wait], [_submit_job] and
    [active_iterations], over an explicit state that holds the attributes of
    [self], the condition variable [thread_cond], the objects allocated by
    [copy.deepcopy] and a trace of the calls made to the collaborators. *)

From Stdlib Require Import ZArith Lia Bool String Sorted.
From stdpp Require Import base list relations.

Local Open Scope Z_scope.

(** ** Python values the module works with *)

(** Exceptions the module raises or runs into. *)
Inductive Exn :=
| ValueError
| OSError
| UnboundLocalError
| NameError
| IndexError
| RuntimeError
| NotImplementedError.

(** Threads: the thread that calls [run] and the dispatcher's threads that
    deliver callbacks. *)
Definition Thread := nat.
Definition scheduler : Thread := 0%nat.

(** A configuration id is the tuple (iteration, round, index). *)
Definition ConfigId : Type := Z * Z * Z.

(** [l[k]] for a Python list: a negative index counts from the end, an index
    out of range raises IndexError (here [None]). *)
Definition py_index {A} (l : list A) (k : Z) : option A :=
  let n := Z.of_nat (length l) in
  if (0 <=? k) && (k <? n) then l !! Z.to_nat k
  else if (- n <=? k) && (k <? 0) then l !! Z.to_nat (n + k)
  else None.

(** The position [l[k]] denotes, when it denotes one. *)
Definition py_position {A} (l : list A) (k : Z) : option nat :=
  let n := Z.of_nat (length l) in
  if (0 <=? k) && (k <? n) then Some (Z.to_nat k)
  else if (- n <=? k) && (k <? 0) then Some (Z.to_nat (n + k))
  else None.

(** ** [threading.Condition] over a reentrant lock *)

Record Condition := mkCondition {
  lock_owner : option (Thread * nat);   (* holder and recursion depth *)
  waiters : list Thread                 (* threads blocked in [wait], oldest first *)
}.

Definition new_condition : Condition := mkCondition None [].

(** [acquire]: [None] when another thread holds the lock (the caller blocks). *)
Definition cond_acquire (t : Thread) (c : Condition) : option Condition :=
  match lock_owner c with
  | None => Some (mkCondition (Some (t, 1%nat)) (waiters c))
  | Some (o, d) =>
      if Nat.eqb o t then Some (mkCondition (Some (t, S d)) (waiters c)) else None
  end.

(** [release]: [None] stands for the RuntimeError of releasing a lock the
    caller does not hold. *)
Definition cond_release (t : Thread) (c : Condition) : option Condition :=
  match lock_owner c with
  | Some (o, S d) =>
      if Nat.eqb o t then
        Some (mkCondition (match d with O => None | S _ => Some (t, d) end) (waiters c))
      else None
  | _ => None
  end.

Definition cond_holds (t : Thread) (c : Condition) : bool :=
  match lock_owner c with
  | Some (o, _) => Nat.eqb o t
  | None => false
  end.

(** [notify()] wakes the oldest waiter, [notify_all()] every waiter. *)
Definition cond_notify (c : Condition) : Condition :=
  mkCondition (lock_owner c) (tail (waiters c)).

Definition cond_notify_all (c : Condition) : Condition :=
  mkCondition (lock_owner c) [].

(** ** Jobs, the dispatcher and the iteration interface *)

(** What [get_next_run] hands out and [_submit_job] takes:
    [(config_id, config, budget)]. *)
Definition Run (Configuration Budget : Type) : Type :=
  ConfigId * Configuration * Budget.

Record Job (Configuration Budget : Type) := mkJob {
  id : ConfigId;
  job_config : Configuration;
  job_budget : Budget;
  job_working_directory : string
}.
Arguments mkJob {Configuration Budget} _ _ _ _.
Arguments id {Configuration Budget} _.
Arguments job_config {Configuration Budget} _.
Arguments job_budget {Configuration Budget} _.
Arguments job_working_directory {Configuration Budget} _.

(** Modelled from the spec: the dispatcher ([hpbandster.distributed.dispatcher])
    is an external collaborator. [submit_job] accepts a job for remote
    execution and returns it; [number_of_workers] is a point-in-time count. *)
Record Dispatcher (Configuration Budget : Type) := mkDispatcher {
  number_of_workers : Z;
  accepted : list (Job Configuration Budget)
}.
Arguments mkDispatcher {Configuration Budget} _ _.
Arguments number_of_workers {Configuration Budget} _.
Arguments accepted {Configuration Budget} _.

Definition submit_job {Configuration Budget}
    (config_id : ConfigId) (config : Configuration) (budget : Budget)
    (working_directory : string) (d : Dispatcher Configuration Budget)
  : Job Configuration Budget * Dispatcher Configuration Budget :=
  let job := mkJob config_id config budget working_directory in
  (job, mkDispatcher (number_of_workers d) (accepted d ++ [job])).

(** The interface the loop consumes from an iteration object
    ([SuccessiveHalving] or a class like it). A method acts on the state of
    its own iteration and returns normally. *)
Class Iteration (Configuration Budget Data Iter : Type) := {
  get_next_run : Iter -> option (Run Configuration Budget) * Iter;
  register_result : Job Configuration Budget -> Iter -> Iter;
  is_finished : Iter -> bool;
  data : Iter -> Data
}.

(** ** Objects and references *)

(** The objects the result of [run] can point to: the data store of the
    [k]-th iteration ([self.iterations[k].data]), the [n]-th object allocated
    by [copy.deepcopy], and the dict [self.config]. *)
Inductive Ref :=
| RefIterData (k : nat)
| RefCopy (n : nat)
| RefConfig.

(** [self.config = {'time_ref': self.time_ref}] *)
Record RunConfig (Time : Type) := mkRunConfig {
  cfg_time_ref : option Time
}.
Arguments mkRunConfig {Time} _.
Arguments cfg_time_ref {Time} _.

(** Modelled from the spec: [HB_result] ([hpbandster.HB_result]) bundles the
    list of per-iteration data snapshots with the run configuration. *)
Record HB_result := mkHB_result {
  HB_iteration_data : list Ref;
  HB_config : Ref
}.

Inductive Obj (Data Time : Type) :=
| ObjData (d : Data)
| ObjConfig (c : RunConfig Time).
Arguments ObjData {Data Time} _.
Arguments ObjConfig {Data Time} _.

(** ** Calls and writes, in the order they happen *)

Inductive Event (Configuration Budget : Type) :=
| EvMakedirs (path : string)
| EvDispatcherStart
| EvAcquire (t : Thread)
| EvRelease (t : Thread)
| EvWait (t : Thread)
| EvNotify
| EvNotifyAll
| EvRunningJobs (n : Z)
| EvGetNextRun (i : nat)
| EvSubmitJob (j : Job Configuration Budget)
| EvRegisterResult (i : nat) (j : Job Configuration Budget)
| EvNewResult (j : Job Configuration Budget).
Arguments EvMakedirs {Configuration Budget} _.
Arguments EvDispatcherStart {Configuration Budget}.
Arguments EvAcquire {Configuration Budget} _.
Arguments EvRelease {Configuration Budget} _.
Arguments EvWait {Configuration Budget} _.
Arguments EvNotify {Configuration Budget}.
Arguments EvNotifyAll {Configuration Budget}.
Arguments EvRunningJobs {Configuration Budget} _.
Arguments EvGetNextRun {Configuration Budget} _.
Arguments EvSubmitJob {Configuration Budget} _.
Arguments EvRegisterResult {Configuration Budget} _ _.
Arguments EvNewResult {Configuration Budget} _.

(** What the other threads do while the loop is blocked in [wait]: a
    dispatcher thread delivers a finished job, the worker pool changes, the
    dispatcher reports a pool size, or the loop's thread gets the lock back. *)
Inductive EnvEvent (Configuration Budget : Type) :=
| EnvJobDone (t : Thread) (j : Job Configuration Budget)
| EnvPool (n : Z)
| EnvRescale (t : Thread) (number_of_workers : option Z)
| EnvResume.
Arguments EnvJobDone {Configuration Budget} _ _.
Arguments EnvPool {Configuration Budget} _.
Arguments EnvRescale {Configuration Budget} _ _.
Arguments EnvResume {Configuration Budget}.

(** ** The master object and its methods *)

Section Master.
Context {Configuration Budget Data Iter Time : Type}.
Context `{!Iteration Configuration Budget Data Iter}.

Abbreviation Run := (Run Configuration Budget).
Abbreviation Job := (Job Configuration Budget).
Abbreviation Event := (Event Configuration Budget).
Abbreviation EnvEvent := (EnvEvent Configuration Budget).

(** The attributes of [self] that the methods read or write, the objects
    allocated by [copy.deepcopy], and the trace. The logger is left out:
    its calls change nothing the methods read. *)
Record World := mkWorld {
  working_directory : string;
  time_ref : option Time;
  iterations : list Iter;
  jobs : list Job;
  num_running_jobs : Z;
  job_queue_sizes : Z * Z;
  user_job_queue_sizes : Z * Z;
  dynamic_queue_size : bool;
  thread_cond : Condition;
  config : RunConfig Time;
  dispatcher : Dispatcher Configuration Budget;
  copies : list (Obj Data Time);
  trace : list Event
}.

Definition set_time_ref (v : option Time) (w : World) : World :=
  mkWorld (working_directory w) v (iterations w) (jobs w) (num_running_jobs w)
          (job_queue_sizes w) (user_job_queue_sizes w) (dynamic_queue_size w)
          (thread_cond w) (config w) (dispatcher w) (copies w) (trace w).

Definition set_iterations (v : list Iter) (w : World) : World :=
  mkWorld (working_directory w) (time_ref w) v (jobs w) (num_running_jobs w)
          (job_queue_sizes w) (user_job_queue_sizes w) (dynamic_queue_size w)
          (thread_cond w) (config w) (dispatcher w) (copies w) (trace w).

Definition set_num_running_jobs (v : Z) (w : World) : World :=
  mkWorld (working_directory w) (time_ref w) (iterations w) (jobs w) v
          (job_queue_sizes w) (user_job_queue_sizes w) (dynamic_queue_size w)
          (thread_cond w) (config w) (dispatcher w) (copies w)
          (trace w ++ [EvRunningJobs v]).

Definition set_job_queue_sizes (v : Z * Z) (w : World) : World :=
  mkWorld (working_directory w) (time_ref w) (iterations w) (jobs w) (num_running_jobs w)
          v (user_job_queue_sizes w) (dynamic_queue_size w)
          (thread_cond w) (config w) (dispatcher w) (copies w) (trace w).

Definition set_thread_cond (v : Condition) (w : World) : World :=
  mkWorld (working_directory w) (time_ref w) (iterations w) (jobs w) (num_running_jobs w)
          (job_queue_sizes w) (user_job_queue_sizes w) (dynamic_queue_size w)
          v (config w) (dispatcher w) (copies w) (trace w).

Definition set_config (v : RunConfig Time) (w : World) : World :=
  mkWorld (working_directory w) (time_ref w) (iterations w) (jobs w) (num_running_jobs w)
          (job_queue_sizes w) (user_job_queue_sizes w) (dynamic_queue_size w)
          (thread_cond w) v (dispatcher w) (copies w) (trace w).

Definition set_dispatcher (v : Dispatcher Configuration Budget) (w : World) : World :=
  mkWorld (working_directory w) (time_ref w) (iterations w) (jobs w) (num_running_jobs w)
          (job_queue_sizes w) (user_job_queue_sizes w) (dynamic_queue_size w)
          (thread_cond w) (config w) v (copies w) (trace w).

Definition set_copies (v : list (Obj Data Time)) (w : World) : World :=
  mkWorld (working_directory w) (time_ref w) (iterations w) (jobs w) (num_running_jobs w)
          (job_queue_sizes w) (user_job_queue_sizes w) (dynamic_queue_size w)
          (thread_cond w) (config w) (dispatcher w) v (trace w).

Definition log (e : Event) (w : World) : World :=
  mkWorld (working_directory w) (time_ref w) (iterations w) (jobs w) (num_running_jobs w)
          (job_queue_sizes w) (user_job_queue_sizes w) (dynamic_queue_size w)
          (thread_cond w) (config w) (dispatcher w) (copies w) (trace w ++ [e]).

(** What a reference points to. *)
Definition deref (w : World) (r : Ref) : option (Obj Data Time) :=
  match r with
  | RefIterData k => (fun it => ObjData (data it)) <$> iterations w !! k
  | RefCopy n => copies w !! n
  | RefConfig => Some (ObjConfig (config w))
  end.

(** How a call ends: it returns, it raises, the calling thread stays blocked
    (on the lock, or in [wait] with nobody left to wake it), or the loop is
    still turning when the fuel is spent. *)
Inductive Outcome (A : Type) :=
| Ret (a : A) (w : World)
| Raise (e : Exn) (w : World)
| Blocked (w : World)
| OutOfFuel (w : World).
Arguments Ret {A} _ _.
Arguments Raise {A} _ _.
Arguments Blocked {A} _.
Arguments OutOfFuel {A} _.

Definition M (A : Type) : Type := World -> Outcome A.

Definition ret {A} (a : A) : M A := fun w => Ret a w.

Definition bind {A B} (m : M A) (k : A -> M B) : M B := fun w =>
  match m w with
  | Ret a w' => k a w'
  | Raise e w' => Raise e w'
  | Blocked w' => Blocked w'
  | OutOfFuel w' => OutOfFuel w'
  end.

Definition world_of {A} (o : Outcome A) : World :=
  match o with
  | Ret _ w | Raise _ w | Blocked w | OutOfFuel w => w
  end.

(** [with self.thread_cond: body] run by thread [t]. *)
Definition with_thread_cond {A} (t : Thread) (body : M A) : M A := fun w =>
  match cond_acquire t (thread_cond w) with
  | None => Blocked w
  | Some c =>
      let leave (w1 : World) (k : World -> Outcome A) : Outcome A :=
        match cond_release t (thread_cond w1) with
        | Some c1 => k (log (EvRelease t) (set_thread_cond c1 w1))
        | None => Raise RuntimeError w1
        end in
      match body (log (EvAcquire t) (set_thread_cond c w)) with
      | Ret a w1 => leave w1 (Ret a)
      | Raise e w1 => leave w1 (Raise e)
      | Blocked w1 => Blocked w1
      | OutOfFuel w1 => OutOfFuel w1
      end
  end.

Definition notify (w : World) : World :=
  log EvNotify (set_thread_cond (cond_notify (thread_cond w)) w).

Definition notify_all (w : World) : World :=
  log EvNotifyAll (set_thread_cond (cond_notify_all (thread_cond w)) w).

(** *** [__init__] *)

(** The constructor returns the new object or raises; when it raises, what it
    had done by then is kept. *)
Inductive InitOutcome :=
| Constructed (w : World)
| InitRaise (e : Exn) (done : list Event).

(** [makedirs_ok] tells whether [os.makedirs(working_directory, exist_ok=True)]
    succeeds; [workers] is the size of the pool the new dispatcher sees. *)
Definition __init__ (makedirs_ok : bool) (workers : Z)
    (working_directory : string) (job_queue_sizes : Z * Z)
    (dynamic_queue_size : bool) : InitOutcome :=
  if negb makedirs_ok then InitRaise OSError []
  else
    let done := [EvMakedirs working_directory] in
    if fst job_queue_sizes >=? snd job_queue_sizes then InitRaise ValueError done
    else
      Constructed
        (mkWorld working_directory None [] [] 0
                 job_queue_sizes job_queue_sizes dynamic_queue_size
                 new_condition (mkRunConfig None)
                 (mkDispatcher workers [])
                 [] (done ++ [EvDispatcherStart])).

(** *** [get_next_iteration] *)

(** The method of the base class: it raises NotImplementedError. *)
Definition get_next_iteration (iteration : nat) : M Iter :=
  fun w => Raise NotImplementedError w.

(** *** [active_iterations] *)

(** [lambda idx: not self.iterations[idx].is_finished] *)
Definition is_active (w : World) (idx : nat) : bool :=
  match iterations w !! idx with
  | Some it => negb (is_finished it)
  | None => false
  end.

Definition active_iterations (w : World) : list nat :=
  List.filter (is_active w) (seq 0 (length (iterations w))).

(** *** [_submit_job] *)

Definition _submit_job (t : Thread) (next_run : Run) : M unit :=
  let '(config_id, config, budget) := next_run in
  with_thread_cond t (fun w =>
    let '(job, d) := submit_job config_id config budget (working_directory w)
                                (dispatcher w) in
    let w := log (EvSubmitJob job) (set_dispatcher d w) in
    Ret tt (set_num_running_jobs (num_running_jobs w + 1) w)).

(** *** [job_callback] *)

Definition new_result (job : Job) : M unit :=
  fun w => Ret tt (log (EvNewResult job) w).

Definition job_callback (t : Thread) (job : Job) : M unit :=
  bind
    (with_thread_cond t (fun w =>
       let w := set_num_running_jobs (num_running_jobs w - 1) w in
       let w := if num_running_jobs w <=? fst (job_queue_sizes w)
                then notify w else w in
       match py_position (iterations w) (fst (fst (id job))) with
       | Some k =>
           match iterations w !! k with
           | Some it =>
               Ret tt (log (EvRegisterResult k job)
                         (set_iterations (<[k := register_result job it]> (iterations w)) w))
           | None => Raise IndexError w
           end
       | None => Raise IndexError w
       end))
    (fun _ => new_result job).

(** *** [adjust_queue_size] *)

Definition adjust_queue_size (t : Thread) (number_of_workers_arg : option Z) : M unit :=
  fun w =>
    if dynamic_queue_size w then
      with_thread_cond t (fun w =>
        let nw := match number_of_workers_arg with
                  | None => number_of_workers (dispatcher w)
                  | Some n => n
                  end in
        let w := set_job_queue_sizes
                   (fst (user_job_queue_sizes w) + nw, snd (user_job_queue_sizes w) + nw) w in
        Ret tt (notify_all w)) w
    else Ret tt w.

(** *** [_queue_wait] *)

(** What another thread does to the state. A callback that raises ends its
    own thread; the state it leaves behind stays. *)
Definition env_step (e : EnvEvent) (w : World) : World :=
  match e with
  | EnvJobDone t j => world_of (job_callback t j w)
  | EnvPool n =>
      set_dispatcher (mkDispatcher n (accepted (dispatcher w))) w
  | EnvRescale t n => world_of (adjust_queue_size t n w)
  | EnvResume => w
  end.

Definition is_waiting (t : Thread) (w : World) : bool :=
  existsb (Nat.eqb t) (waiters (thread_cond w)).

(** [wait()] up to the point where the thread sleeps: the lock is given up
    whole and the thread joins the waiters. *)
Definition begin_wait (t : Thread) (w : World) : World :=
  log (EvWait t)
      (set_thread_cond (mkCondition None (waiters (thread_cond w) ++ [t])) w).

(** The rest of [wait()]: the lock is taken back at the depth it had. *)
Definition end_wait (t : Thread) (depth : nat) (w : World) : World :=
  log (EvAcquire t)
      (set_thread_cond (mkCondition (Some (t, depth)) (waiters (thread_cond w))) w).

(** The loop's thread sleeps in [wait()] inside
    [while self.num_running_jobs > self.job_queue_sizes[0]]. The other
    threads go on; at [EnvResume] the thread, if it was notified, takes the
    lock back and tests the condition of the [while] again. When the other
    threads have nothing left to do, it sleeps for good. *)
Fixpoint await (t : Thread) (depth : nat) (env : list EnvEvent) (w : World)
  : Outcome (list EnvEvent) :=
  match env with
  | [] => Blocked w
  | EnvResume :: env' =>
      if is_waiting t w then await t depth env' w
      else
        let w := end_wait t depth w in
        if num_running_jobs w >? fst (job_queue_sizes w)
        then await t depth env' (begin_wait t w)
        else Ret env' w
  | e :: env' => await t depth env' (env_step e w)
  end.

Definition _queue_wait (t : Thread) (env : list EnvEvent) : M (list EnvEvent) :=
  fun w =>
    if num_running_jobs w >=? snd (job_queue_sizes w) then
      if num_running_jobs w >? fst (job_queue_sizes w) then
        match lock_owner (thread_cond w) with
        | Some (o, depth) =>
            if Nat.eqb o t then await t depth env (begin_wait t w)
            else Raise RuntimeError w
        | None => Raise RuntimeError w
        end
      else Ret env w
    else Ret env w.

(** *** [run] *)

(** The locals of [run] that the loop goes through: [next_run] and [i] are
    unbound ([None]) until the body of the [for] has run once. *)
Record Locals := mkLocals {
  l_next_run : option (option Run);
  l_i : option nat;
  l_n_iterations : Z
}.

(** [for i in self.active_iterations(): next_run = ...; if not next_run is None: break]
    over the list the call to [active_iterations] returned. *)
Fixpoint scan (idxs : list nat) (l : Locals) (w : World) : Outcome Locals :=
  match idxs with
  | [] => Ret l w
  | idx :: rest =>
      match iterations w !! idx with
      | None => Raise IndexError w
      | Some it =>
          let '(r, it') := get_next_run it in
          let w := log (EvGetNextRun idx)
                       (set_iterations (<[idx := it']> (iterations w)) w) in
          let l := mkLocals (Some r) (Some idx) (l_n_iterations l) in
          match r with
          | Some _ => Ret l w
          | None => scan rest l w
          end
      end
  end.

(** Line 193 calls the bare name [get_next_iteration]. It is no local of
    [run], so it is looked up among the globals of the module: [scope] is what
    it finds there, [None] when nothing is bound to the name. *)
Definition Scope : Type := option (nat -> Iter).

(** The module binds [os], [threading], [time], [math], [pdb], [copy],
    [logging], [np], [Dispatcher], [SuccessiveHalving], [HB_result] and
    [HpBandSter]; [get_next_iteration] is a method of the class and no
    global. *)
Definition module_scope : Scope := None.

Inductive Control :=
| Continue (env : list EnvEvent) (l : Locals)
| Break.

(** One turn of [while True]. *)
Definition pass (scope : Scope) (env : list EnvEvent) (l : Locals) : M Control :=
  bind (fun w => scan (active_iterations w) l w) (fun l =>
    match l_next_run l with
    | None => fun w => Raise UnboundLocalError w
    | Some (Some next_run) =>
        bind (_submit_job scheduler next_run) (fun _ w =>
          match active_iterations w with
          | [] => Ret Break w
          | _ :: _ => Ret (Continue env l) w
          end)
    | Some None =>
        if l_n_iterations l >? 0 then
          match scope with
          | None => fun w => Raise NameError w
          | Some get_next_iteration => fun w =>
              let it := get_next_iteration (length (iterations w)) in
              Ret (Continue env (mkLocals (l_next_run l) (l_i l) (l_n_iterations l - 1)))
                  (set_iterations (iterations w ++ [it]) w)
          end
        else
          bind (_queue_wait scheduler env) (fun env => ret (Continue env l))
    end).

Fixpoint run_loop (scope : Scope) (fuel : nat) (env : list EnvEvent) (l : Locals)
  : M unit :=
  fun w =>
    match fuel with
    | O => OutOfFuel w
    | S fuel =>
        match pass scope env l w with
        | Ret (Continue env l) w => run_loop scope fuel env l w
        | Ret Break w => Ret tt w
        | Raise e w => Raise e w
        | Blocked w => Blocked w
        | OutOfFuel w => OutOfFuel w
        end
    end.

(** [copy.deepcopy]: a new object, equal to the one copied, that shares
    nothing with it. *)
Definition deepcopy (r : Ref) (w : World) : option (Ref * World) :=
  match deref w r with
  | Some o => Some (RefCopy (length (copies w)), set_copies (copies w ++ [o]) w)
  | None => None
  end.

(** [[copy.deepcopy(i.data) for i in self.iterations]], the iterations taken
    by position. *)
Fixpoint deepcopy_data (ks : list nat) (w : World) : option (list Ref * World) :=
  match ks with
  | [] => Some ([], w)
  | k :: ks =>
      match deepcopy (RefIterData k) w with
      | Some (r, w) =>
          match deepcopy_data ks w with
          | Some (rs, w) => Some (r :: rs, w)
          | None => None
          end
      | None => None
      end
  end.

(** [now] is what [time.time()] returns at line 170; [fuel] bounds the turns
    of the loop, [env] is what the other threads do while the loop waits. *)
Definition run (scope : Scope) (fuel : nat) (env : list EnvEvent) (now : Time)
    (n_iterations : Z) : M HB_result :=
  fun w =>
    let w := match time_ref w with
             | None => set_config (mkRunConfig (Some now)) (set_time_ref (Some now) w)
             | Some _ => w
             end in
    match cond_acquire scheduler (thread_cond w) with
    | None => Blocked w
    | Some c =>
        let w := log (EvAcquire scheduler) (set_thread_cond c w) in
        match run_loop scope fuel env (mkLocals None None n_iterations) w with
        | Ret _ w =>
            match cond_release scheduler (thread_cond w) with
            | None => Raise RuntimeError w
            | Some c =>
                let w := log (EvRelease scheduler) (set_thread_cond c w) in
                match deepcopy_data (seq 0 (length (iterations w))) w with
                | Some (snapshots, w) => Ret (mkHB_result snapshots RefConfig) w
                | None => Raise IndexError w
                end
            end
        | Raise e w => Raise e w
        | Blocked w => Blocked w
        | OutOfFuel w => OutOfFuel w
        end
    end.

End Master.

Arguments Ret {Configuration Budget Data Iter Time A} _ _.
Arguments Raise {Configuration Budget Data Iter Time A} _ _.
Arguments Blocked {Configuration Budget Data Iter Time A} _.
Arguments OutOfFuel {Configuration Budget Data Iter Time A} _.
Arguments Continue {Configuration Budget} _ _.
Arguments Break {Configuration Budget}.

(** ** Sequences of submissions and completions

    [_submit_job] and [job_callback] do their work on the counter inside
    [with self.thread_cond], so calls from different threads happen one after
    the other: an interleaving is a sequence of calls. *)

Section Operations.
Context {Configuration Budget Data Iter Time : Type}.
Context `{!Iteration Configuration Budget Data Iter}.

Inductive Op :=
| OpSubmit (t : Thread) (next_run : Run Configuration Budget)
| OpComplete (t : Thread) (job : Job Configuration Budget).

Definition op_step (op : Op) (w : World (Data := Data) (Iter := Iter) (Time := Time))
  : World :=
  match op with
  | OpSubmit t next_run => world_of (_submit_job t next_run w)
  | OpComplete t job => world_of (job_callback t job w)
  end.

Definition run_ops (ops : list Op) (w : World (Data := Data) (Iter := Iter) (Time := Time))
  : World :=
  foldl (fun w op => op_step op w) w ops.

Fixpoint submissions (ops : list Op) : Z :=
  match ops with
  | [] => 0
  | OpSubmit _ _ :: ops => 1 + submissions ops
  | OpComplete _ _ :: ops => submissions ops
  end.

Fixpoint completions (ops : list Op) : Z :=
  match ops with
  | [] => 0
  | OpSubmit _ _ :: ops => completions ops
  | OpComplete _ _ :: ops => 1 + completions ops
  end.

Fixpoint remove_one (x : ConfigId) (l : list ConfigId) : list ConfigId :=
  match l with
  | [] => []
  | y :: l => if decide (x = y) then l else y :: remove_one x l
  end.

(** Every completion is for a job that was submitted before and has not been
    delivered yet; [outstanding] holds the ids of the jobs in that state. *)
Fixpoint delivered_once (outstanding : list ConfigId) (ops : list Op) : bool :=
  match ops with
  | [] => true
  | OpSubmit _ (config_id, _, _) :: ops => delivered_once (config_id :: outstanding) ops
  | OpComplete _ job :: ops =>
      bool_decide (id job ∈ outstanding)
      && delivered_once (remove_one (id job) outstanding) ops
  end.

End Operations.

(** ** [wait_for_workers] *)

(** The names bound at the top level of [master.py], by its imports and its
    class statement. *)
Definition module_globals : list string :=
  ["os"; "threading"; "time"; "math"; "pdb"; "copy"; "logging"; "np";
   "Dispatcher"; "SuccessiveHalving"; "HB_result"; "HpBandSter"]%string.

(** Keyword arguments against the parameters that the positional arguments
    left free: each keyword must name one of them, and none twice. *)
Fixpoint bind_keywords (free : list string) (keywords : list string) : bool :=
  match keywords with
  | [] => true
  | k :: ks =>
      existsb (String.eqb k) free
      && bind_keywords (List.filter (fun p => negb (String.eqb k p)) free) ks
  end.

(** How a call binds its arguments to the parameters of a function whose
    parameters all have defaults: the positional arguments fill the
    parameters from the left, each keyword argument the parameter of its
    name. The call raises TypeError ([None]) when there are more positional
    arguments than parameters, when a keyword names no parameter, and when a
    parameter is given twice. The result is the local names of the call. *)
Definition bind_arguments (params : list string) (positional : nat)
    (keywords : list string) : option (list string) :=
  if (positional <=? length params)%nat
     && bind_keywords (drop positional params) keywords
  then Some params
  else None.

(** Where a name of a function body is looked up: in the locals of the call,
    then in the globals of the module. (Then in the builtins, which hold
    neither of the two names looked up below.) *)
Definition name_bound (locals : list string) (name : string) : bool :=
  existsb (String.eqb name) locals || existsb (String.eqb name) module_globals.

Section WaitForWorkers.
Context {Configuration Budget Data Iter Time : Type}.

(** A call raises TypeError before the body starts, or the body runs. *)
Inductive Call (A : Type) :=
| CallTypeError
| Called (o : Outcome (Configuration := Configuration) (Budget := Budget)
                      (Data := Data) (Iter := Iter) (Time := Time) A).

(** [def wait_for_workers(min_num_workers=1)]: the only parameter is
    [min_num_workers]; in a call on an object, the object is the first
    positional argument. The body starts with the test of the [while]:
    [self.dispatcher.number_of_workers() < min_n_workers] looks up [self],
    calls the dispatcher, and looks up [min_n_workers]. [poll] stands for
    what follows once the test has a value: the loop with its
    [time.sleep(1)]. *)
Definition wait_for_workers (positional : nat) (keywords : list string)
    (poll : Z -> M (Configuration := Configuration) (Budget := Budget)
                   (Data := Data) (Iter := Iter) (Time := Time) unit)
    (w : World (Configuration := Configuration) (Budget := Budget)
               (Data := Data) (Iter := Iter) (Time := Time))
  : Call unit :=
  match bind_arguments ["min_num_workers"%string] positional keywords with
  | None => CallTypeError unit
  | Some locals =>
      Called unit
        (if name_bound locals "self" then
           let workers := number_of_workers (dispatcher w) in
           if name_bound locals "min_n_workers" then poll workers w
           else Raise NameError w
         else Raise NameError w)
  end.

End WaitForWorkers.

Arguments CallTypeError {Configuration Budget Data Iter Time A}.
Arguments Called {Configuration Budget Data Iter Time A} _.

(** ** A concrete iteration, for running the model

    It hands out the runs of [s_queue] one by one, stores the jobs it is given
    in [s_data], and marks itself finished once the queue is empty and
    [s_open] more results have come in. *)

Record Scripted := mkScripted {
  s_queue : list (Run Z Z);
  s_open : nat;
  s_data : list (Job Z Z);
  s_finished : bool
}.

Definition scripted_done (queue : list (Run Z Z)) (open : nat) : bool :=
  match queue, open with
  | [], O => true
  | _, _ => false
  end.

Definition scripted_get_next_run (s : Scripted) : option (Run Z Z) * Scripted :=
  match s_queue s with
  | [] => (None, s)
  | r :: q =>
      (Some r, mkScripted q (s_open s) (s_data s)
                          (s_finished s || scripted_done q (s_open s)))
  end.

Definition scripted_register_result (j : Job Z Z) (s : Scripted) : Scripted :=
  mkScripted (s_queue s) (pred (s_open s)) (s_data s ++ [j])
             (s_finished s || scripted_done (s_queue s) (pred (s_open s))).

#[global] Instance scripted_iteration : Iteration Z Z (list (Job Z Z)) Scripted := {
  get_next_run := scripted_get_next_run;
  register_result := scripted_register_result;
  is_finished := s_finished;
  data := s_data
}.

(** A master as the constructor leaves it, with the given iterations put in
    place. *)
Definition scripted_world (sizes : Z * Z) (dynamic : bool) (its : list Scripted)
  : World (Configuration := Z) (Budget := Z) (Data := list (Job Z Z))
          (Iter := Scripted) (Time := Z) :=
  mkWorld "."%string None its [] 0 sizes sizes dynamic new_condition
          (mkRunConfig None) (mkDispatcher 1 []) []
          [EvMakedirs "."%string; EvDispatcherStart].

(** * Properties *)

(** ** The lock *)

(** Whether thread [t] can take the lock now: it is free or [t] holds it. *)
Definition lock_available (t : Thread) (c : Condition) : Prop :=
  match lock_owner c with
  | None => True
  | Some (o, _) => o = t
  end.

Lemma cond_acquire_available t c :
  lock_available t c ->
  exists d, cond_acquire t c = Some (mkCondition (Some (t, S d)) (waiters c)).
Proof.
  unfold lock_available, cond_acquire.
  destruct (lock_owner c) as [[o d]|]; intros Ho.
  - subst o. rewrite Nat.eqb_refl. by exists d.
  - by exists 0%nat.
Qed.

Lemma cond_release_held t d ws :
  cond_release t (mkCondition (Some (t, S d)) ws)
  = Some (mkCondition (match d with O => None | S _ => Some (t, d) end) ws).
Proof. unfold cond_release; simpl. by rewrite Nat.eqb_refl. Qed.

Section Properties.
Context {Configuration Budget Data Iter Time : Type}.
Context `{!Iteration Configuration Budget Data Iter}.

Abbreviation World' := (@World Configuration Budget Data Iter Time).

(** ** The constructor *)

(** C9: with [low >= high] the constructor raises, and it does so before the
    dispatcher is created or started, so before any job can be submitted;
    when the working directory can be made the error is the ValueError of the
    check. With [low < high] the constructor never raises that ValueError,
    and when the working directory can be made it returns the object, with
    the pair as given and no job in flight. *)
Theorem init_checks_queue_sizes
    (makedirs_ok : bool) (workers : Z) (wd : string) (low high : Z) (dyn : bool) :
  (low >= high ->
     exists e done,
       __init__ (Data := Data) (Iter := Iter) (Time := Time)
                makedirs_ok workers wd (low, high) dyn
       = InitRaise (Configuration := Configuration) (Budget := Budget) e done
       /\ (makedirs_ok = true -> e = ValueError)
       /\ (EvDispatcherStart ∉ done)
       /\ (forall j, EvSubmitJob j ∉ done))
  /\ (low < high ->
     (forall done,
        __init__ (Data := Data) (Iter := Iter) (Time := Time)
                 makedirs_ok workers wd (low, high) dyn
        <> InitRaise (Configuration := Configuration) (Budget := Budget)
                     ValueError done)
     /\ (makedirs_ok = true ->
         exists w : World',
           __init__ makedirs_ok workers wd (low, high) dyn = Constructed w
           /\ job_queue_sizes w = (low, high)
           /\ user_job_queue_sizes w = (low, high)
           /\ num_running_jobs w = 0
           /\ iterations w = []
           /\ accepted (dispatcher w) = [])).
Proof.
  unfold __init__; simpl. split.
  - intros Hge. destruct makedirs_ok; simpl.
    + assert ((low >=? high) = true) as -> by lia.
      exists ValueError, [EvMakedirs wd]. split; [done|].
      split; [done|]. split.
      * intros Hin. apply list_elem_of_singleton in Hin. discriminate.
      * intros j Hin. apply list_elem_of_singleton in Hin. discriminate.
    + exists OSError, []. split; [done|]. split; [discriminate|].
      split; [apply not_elem_of_nil | intros j; apply not_elem_of_nil].
  - intros Hlt. assert ((low >=? high) = false) as -> by lia. split.
    + intros done. destruct makedirs_ok; simpl; discriminate.
    + intros ->. simpl. eexists. repeat split.
Qed.


(** ** Rescaling *)

(** C5: with dynamic scaling on, [adjust_queue_size] called with a worker
    count [n] (or, without one, with the count the dispatcher reports) sets
    the watermark pair to the operator's pair shifted by [n], leaves the
    operator's pair and the in-flight count as they were, and wakes every
    waiter with one [notify_all] under the lock; with dynamic scaling off it
    changes nothing at all, whatever the count and whoever holds the lock. *)
Theorem adjust_queue_size_rescale
    (t : Thread) (arg : option Z) (w : World') :
  let n := match arg with
           | Some n => n
           | None => number_of_workers (dispatcher w)
           end in
  (dynamic_queue_size w = true ->
   lock_available t (thread_cond w) ->
   exists w',
     adjust_queue_size t arg w = Ret tt w'
     /\ job_queue_sizes w'
        = (fst (user_job_queue_sizes w) + n, snd (user_job_queue_sizes w) + n)
     /\ user_job_queue_sizes w' = user_job_queue_sizes w
     /\ num_running_jobs w' = num_running_jobs w
     /\ waiters (thread_cond w') = []
     /\ trace w' = trace w ++ [EvAcquire t; EvNotifyAll; EvRelease t])
  /\ (dynamic_queue_size w = false -> adjust_queue_size t arg w = Ret tt w).
Proof.
  intros n. split.
  - intros Hdyn Hlock. unfold adjust_queue_size. rewrite Hdyn.
    unfold with_thread_cond.
    destruct (cond_acquire_available _ _ Hlock) as [d ->].
    cbn. rewrite Nat.eqb_refl. eexists. split; [reflexivity|].
    cbn. rewrite <- !app_assoc. by destruct arg.
  - intros Hdyn. unfold adjust_queue_size. by rewrite Hdyn.
Qed.

(** ** The completion callback *)



(** ** The in-flight counter *)

Definition op_delta (op : Op (Configuration := Configuration) (Budget := Budget)) : Z :=
  match op with
  | OpSubmit _ _ => 1
  | OpComplete _ _ => -1
  end.

Lemma op_step_counter (op : Op) (w : World') :
  lock_owner (thread_cond w) = None ->
  num_running_jobs (op_step op w) = num_running_jobs w + op_delta op
  /\ lock_owner (thread_cond (op_step op w)) = None.
Proof.
  intros Hfree. destruct op as [t [[config_id cfg] budget] | t job].
  - unfold op_step, _submit_job, with_thread_cond, cond_acquire.
    rewrite Hfree. cbn. rewrite Nat.eqb_refl. cbn. done.
  - unfold op_step, job_callback, bind, with_thread_cond, cond_acquire.
    rewrite Hfree. cbn.
    destruct (num_running_jobs w - 1 <=? fst (job_queue_sizes w)); cbn;
      destruct (py_position (iterations w) (fst (fst (id job)))) as [k|]; cbn;
      try destruct (iterations w !! k); cbn;
      rewrite ?Nat.eqb_refl; cbn; split; (lia || done).
Qed.

Lemma run_ops_counter (ops : list Op) (w : World') :
  lock_owner (thread_cond w) = None ->
  num_running_jobs (run_ops ops w)
  = num_running_jobs w + submissions ops - completions ops.
Proof.
  revert w. induction ops as [|op ops IH]; intros w Hfree.
  - cbn. lia.
  - destruct (op_step_counter op w Hfree) as [Hn Hfree'].
    change (run_ops (op :: ops) w) with (run_ops ops (op_step op w)).
    rewrite (IH _ Hfree'), Hn. destruct op; cbn; lia.
Qed.

Lemma remove_one_length (x : ConfigId) (l : list ConfigId) :
  x ∈ l -> Z.of_nat (length (remove_one x l)) = Z.of_nat (length l) - 1.
Proof.
  induction l as [|y l IH]; intros Hin.
  - by apply not_elem_of_nil in Hin.
  - cbn. destruct (decide (x = y)) as [->|Hne]; [lia|].
    apply elem_of_cons in Hin as [->|Hin]; [done|].
    cbn. rewrite Nat2Z.inj_succ, (IH Hin). lia.
Qed.

Lemma delivered_once_bound (ops : list (Op (Configuration := Configuration) (Budget := Budget)))
    (outstanding : list ConfigId) :
  delivered_once outstanding ops = true ->
  completions ops <= Z.of_nat (length outstanding) + submissions ops.
Proof.
  revert outstanding. induction ops as [|op ops IH]; intros out Hok.
  - cbn. lia.
  - destruct op as [t [[config_id cfg] budget] | t job]; cbn in Hok |- *.
    + specialize (IH _ Hok). cbn in IH. lia.
    + apply andb_prop in Hok as [Hin Hok]. apply bool_decide_eq_true in Hin.
      specialize (IH _ Hok). rewrite (remove_one_length _ _ Hin) in IH. lia.
Qed.

Lemma delivered_once_prefix (pre post : list (Op (Configuration := Configuration) (Budget := Budget)))
    (outstanding : list ConfigId) :
  delivered_once outstanding (pre ++ post) = true ->
  delivered_once outstanding pre = true.
Proof.
  revert outstanding. induction pre as [|op pre IH]; intros out Hok; [done|].
  destruct op as [t [[config_id cfg] budget] | t job]; cbn in Hok |- *.
  - by apply IH.
  - apply andb_prop in Hok as [Hin Hok]. rewrite Hin. cbn. by apply IH.
Qed.

(** C8: start with the counter at zero and the lock free, as the constructor
    leaves them, and take any sequence of [_submit_job] and [job_callback]
    calls in which every callback is for a job submitted before and not yet
    delivered. After every prefix of the sequence the counter is at least
    zero and equals the submissions so far minus the completions so far. *)
Theorem num_running_jobs_counts
    (pre post : list Op) (w : World') :
  num_running_jobs w = 0 ->
  lock_owner (thread_cond w) = None ->
  delivered_once [] (pre ++ post) = true ->
  0 <= num_running_jobs (run_ops pre w)
  /\ num_running_jobs (run_ops pre w) = submissions pre - completions pre.
Proof.
  intros Hzero Hfree Hok.
  apply delivered_once_prefix in Hok. apply delivered_once_bound in Hok.
  rewrite (run_ops_counter pre w Hfree), Hzero. cbn in Hok. lia.
Qed.

(** ** The scan of a scheduling pass *)

Lemma scan_preserves (idxs : list nat) (l l1 : Locals) (w w1 : World') :
  scan idxs l w = Ret l1 w1 ->
  l_n_iterations l1 = l_n_iterations l
  /\ length (iterations w1) = length (iterations w)
  /\ num_running_jobs w1 = num_running_jobs w
  /\ dispatcher w1 = dispatcher w
  /\ thread_cond w1 = thread_cond w
  /\ job_queue_sizes w1 = job_queue_sizes w
  /\ working_directory w1 = working_directory w.
Proof.
  revert l w. induction idxs as [|idx rest IH]; intros l w Hscan; cbn in Hscan.
  - by inversion Hscan.
  - destruct (iterations w !! idx) as [it|]; [|discriminate].
    destruct (get_next_run it) as [[r|] it'].
    + inversion Hscan; subst; cbn. by rewrite length_insert.
    + apply IH in Hscan. cbn in Hscan. by rewrite length_insert in Hscan.
Qed.

(** ** [run] on an empty iteration list *)

(** C3: when [run] is called with no iteration in the list (as on a new
    object) and can take the lock, the body of the [for] never runs, the test
    of [next_run] finds the name unbound and [run] raises UnboundLocalError:
    the list is still empty, nothing was submitted, and all [run] did was
    take the lock. *)
Theorem run_empty_iterations_unbound
    (scope : Scope) (fuel : nat) (env : list (EnvEvent Configuration Budget))
    (now : Time) (n_iterations : Z) (w : World') :
  iterations w = [] ->
  lock_available scheduler (thread_cond w) ->
  exists w',
    run scope (S fuel) env now n_iterations w = Raise UnboundLocalError w'
    /\ iterations w' = []
    /\ num_running_jobs w' = num_running_jobs w
    /\ dispatcher w' = dispatcher w
    /\ trace w' = trace w ++ [EvAcquire scheduler].
Proof.
  intros Hits Hlock.
  destruct (cond_acquire_available _ _ Hlock) as [d Hacq].
  unfold run. destruct (time_ref w); cbn; rewrite Hacq; cbn;
    unfold pass, bind, active_iterations; cbn; rewrite Hits; cbn;
    eexists; (split; [reflexivity|]); cbn; by rewrite ?Hits.
Qed.

(** ** A new iteration *)

(** What line 193 would do if the name [get_next_iteration] were bound to a
    factory: append the iteration made for the current length of the list,
    lower the budget by one, and go on with the loop. *)
Lemma pass_new_iteration_bound
    (factory : nat -> Iter) (env : list (EnvEvent Configuration Budget))
    (l l1 : Locals) (w w1 : World') :
  scan (active_iterations w) l w = Ret l1 w1 ->
  l_next_run l1 = Some None ->
  l_n_iterations l1 > 0 ->
  pass (Some factory) env l w
  = Ret (Continue env (mkLocals (l_next_run l1) (l_i l1) (l_n_iterations l1 - 1)))
        (set_iterations (iterations w1 ++ [factory (length (iterations w1))]) w1).
Proof.
  intros Hscan Hnone Hpos. unfold pass, bind. rewrite Hscan, Hnone.
  assert ((l_n_iterations l1 >? 0) = true) as -> by lia. reflexivity.
Qed.

(** C4: in the module as it is, a pass that finds no runnable job while the
    budget is positive raises NameError at line 193: no iteration is made or
    appended and the budget is not lowered. *)
Theorem pass_new_iteration_name_error
    (env : list (EnvEvent Configuration Budget)) (l l1 : Locals) (w w1 : World') :
  scan (active_iterations w) l w = Ret l1 w1 ->
  l_next_run l1 = Some None ->
  l_n_iterations l1 > 0 ->
  pass module_scope env l w = Raise NameError w1
  /\ length (iterations w1) = length (iterations w)
  /\ l_n_iterations l1 = l_n_iterations l.
Proof.
  intros Hscan Hnone Hpos. split.
  - unfold pass, bind. rewrite Hscan, Hnone.
    assert ((l_n_iterations l1 >? 0) = true) as -> by lia. reflexivity.
  - apply scan_preserves in Hscan. tauto.
Qed.

(** ** Which iteration is served *)

(** The scan over a list of positions whose first entries all answer [None]
    stops at the first position that answers with a run. *)
Lemma scan_finds (pre post : list nat) (i : nat) (l : Locals) (w : World')
    (it it' : Iter) (r : Run Configuration Budget) :
  List.NoDup pre ->
  ~ In i pre ->
  (forall j, In j pre ->
     exists it_j, iterations w !! j = Some it_j /\ fst (get_next_run it_j) = None) ->
  iterations w !! i = Some it ->
  get_next_run it = (Some r, it') ->
  exists w1,
    scan (pre ++ i :: post) l w
    = Ret (mkLocals (Some (Some r)) (Some i) (l_n_iterations l)) w1
    /\ trace w1 = trace w ++ map EvGetNextRun (pre ++ [i])
    /\ iterations w1 !! i = Some it'.
Proof.
  revert l w. induction pre as [|j pre IH]; intros l w Hnd Hni Hpre Hi Hget.
  - cbn. rewrite Hi, Hget. eexists. split; [reflexivity|]. cbn. split; [done|].
    apply list_lookup_insert_eq. eapply lookup_lt_Some; eauto.
  - destruct (Hpre j) as (it_j & Hj & Hnone); [by left|].
    assert (Hji : j <> i) by (intros ->; apply Hni; by left).
    cbn. rewrite Hj. destruct (get_next_run it_j) as [r_j it_j'] eqn:Hgj.
    cbn in Hnone. subst r_j.
    set (w' := log (EvGetNextRun j)
                   (set_iterations (<[j := it_j']> (iterations w)) w)).
    inversion Hnd as [|? ? Hjpre Hnd']; subst.
    destruct (IH (mkLocals (Some None) (Some j) (l_n_iterations l)) w') as (w1 & Hscan & Htr & Hit').
    + done.
    + intros Hin. apply Hni. by right.
    + intros j' Hin'. destruct (Hpre j') as (it_j0 & Hj0 & Hn0); [by right|].
      exists it_j0. split; [|done]. subst w'; cbn.
      rewrite list_lookup_insert_ne; [done|]. intros ->. done.
    + subst w'; cbn. by rewrite list_lookup_insert_ne.
    + done.
    + exists w1. split; [exact Hscan|]. split; [|done].
      rewrite Htr. subst w'; cbn. by rewrite <- app_assoc.
Qed.

Lemma active_iterations_split (w : World') (i : nat) :
  is_active w i = true ->
  active_iterations w
  = List.filter (is_active w) (seq 0 i)
    ++ i :: List.filter (is_active w) (seq (S i) (length (iterations w) - S i)).
Proof.
  intros Hact. unfold active_iterations.
  assert (Hlt : (i < length (iterations w))%nat).
  { unfold is_active in Hact. destruct (iterations w !! i) eqn:Hi; [|discriminate].
    eapply lookup_lt_Some; eauto. }
  replace (length (iterations w)) with (i + S (length (iterations w) - S i))%nat at 1 by lia.
  rewrite seq_app, List.filter_app. cbn. by rewrite Hact.
Qed.

(** C6: take a pass that starts with an iteration at position [i] that is
    not finished and answers [get_next_run] with a run, while every
    unfinished iteration before it answers [None]. Then the scan asks, in
    increasing order of position, the unfinished iterations up to [i] and no
    other (no finished one, none after [i]), binds [next_run] to the run of
    iteration [i], and the pass submits that run. *)
Theorem pass_serves_lowest_index
    (scope : Scope) (env : list (EnvEvent Configuration Budget))
    (l : Locals) (w : World') (i : nat) (it it' : Iter)
    (config_id : ConfigId) (cfg : Configuration) (budget : Budget) :
  iterations w !! i = Some it ->
  is_finished it = false ->
  get_next_run it = (Some (config_id, cfg, budget), it') ->
  (forall j it_j, (j < i)%nat -> iterations w !! j = Some it_j ->
     is_finished it_j = false -> fst (get_next_run it_j) = None) ->
  lock_available scheduler (thread_cond w) ->
  exists w1 w2 c,
    scan (active_iterations w) l w
    = Ret (mkLocals (Some (Some (config_id, cfg, budget))) (Some i) (l_n_iterations l)) w1
    /\ trace w1
       = trace w ++ map EvGetNextRun (List.filter (is_active w) (seq 0 (S i)))
    /\ pass scope env l w = Ret c w2
    /\ trace w2
       = trace w1
         ++ [EvAcquire scheduler;
             EvSubmitJob (mkJob config_id cfg budget (working_directory w));
             EvRunningJobs (num_running_jobs w + 1);
             EvRelease scheduler]
    /\ accepted (dispatcher w2)
       = accepted (dispatcher w)
         ++ [mkJob config_id cfg budget (working_directory w)].
Proof.
  intros Hi Hfin Hget Hbefore Hlock.
  assert (Hact : is_active w i = true) by (unfold is_active; by rewrite Hi, Hfin).
  destruct (scan_finds (List.filter (is_active w) (seq 0 i))
              (List.filter (is_active w) (seq (S i) (length (iterations w) - S i)))
              i l w it it' (config_id, cfg, budget)) as (w1 & Hscan & Htr & _).
  - apply List.NoDup_filter, seq_NoDup.
  - intros Hin. apply filter_In in Hin as [Hin _]. apply in_seq in Hin. lia.
  - intros j Hin. apply filter_In in Hin as [Hin Hj]. apply in_seq in Hin.
    unfold is_active in Hj. destruct (iterations w !! j) as [it_j|] eqn:Hlj; [|discriminate].
    exists it_j. split; [done|]. apply (Hbefore j it_j); [lia|done|].
    by destruct (is_finished it_j).
  - done.
  - done.
  - rewrite <- active_iterations_split in Hscan by done.
    pose proof (scan_preserves _ _ _ _ _ Hscan) as (_ & _ & Hn & Hd & Hc & _ & Hwd).
    destruct (cond_acquire_available _ _ Hlock) as [d Hacq].
    assert (Hasked : List.filter (is_active w) (seq 0 (S i))
                     = List.filter (is_active w) (seq 0 i) ++ [i]).
    { rewrite seq_S, List.filter_app. cbn. by rewrite Hact. }
    unfold pass, bind. rewrite Hscan. cbn.
    unfold with_thread_cond. rewrite Hc, Hacq. cbn. rewrite ?Nat.eqb_refl. cbn.
    rewrite Hn, Hd, Hwd. rewrite <- Hasked in Htr.
    match goal with
    | |- context [match ?x with [] => _ | _ :: _ => _ end] => destruct x
    end; do 3 eexists;
      (split; [reflexivity|]); (split; [exact Htr|]);
      (split; [reflexivity|]); cbn; rewrite <- !app_assoc; by split.
Qed.

(** ** A loop with nothing left to do *)

(** With the budget used up, no iteration active, [next_run] bound to [None]
    and fewer jobs in flight than [high], a pass changes nothing and asks for
    another pass: the [else] branch ends in [continue], so the test of line
    200 is not reached. *)
Lemma pass_idle
    (scope : Scope) (env : list (EnvEvent Configuration Budget))
    (l : Locals) (w : World') :
  active_iterations w = [] ->
  l_next_run l = Some None ->
  l_n_iterations l <= 0 ->
  num_running_jobs w < snd (job_queue_sizes w) ->
  pass scope env l w = Ret (Continue env l) w.
Proof.
  intros Hact Hnone Hbudget Hroom. unfold pass, bind. rewrite Hact. cbn.
  rewrite Hnone.
  assert ((l_n_iterations l >? 0) = false) as -> by lia.
  unfold _queue_wait.
  assert ((num_running_jobs w >=? snd (job_queue_sizes w)) = false) as -> by lia.
  reflexivity.
Qed.

Lemma run_loop_step
    (scope : Scope) (fuel : nat) (env env' : list (EnvEvent Configuration Budget))
    (l l' : Locals) (w w' : World') :
  pass scope env l w = Ret (Continue env' l') w' ->
  run_loop scope (S fuel) env l w = run_loop scope fuel env' l' w'.
Proof. intros Hpass. cbn. by rewrite Hpass. Qed.

Lemma run_loop_spins
    (scope : Scope) (env : list (EnvEvent Configuration Budget))
    (l : Locals) (w : World') (fuel : nat) :
  active_iterations w = [] ->
  l_next_run l = Some None ->
  l_n_iterations l <= 0 ->
  num_running_jobs w < snd (job_queue_sizes w) ->
  run_loop scope fuel env l w = OutOfFuel w.
Proof.
  intros Hact Hnone Hbudget Hroom. induction fuel as [|fuel IH]; [done|].
  cbn. by rewrite pass_idle.
Qed.

(** ** The result of [run] *)

(** The calls the loop makes leave [self.config] and the copies alone. *)
Definition same_objects (w w' : World') : Prop :=
  config w' = config w /\ copies w' = copies w.

Lemma same_objects_refl (w : World') : same_objects w w.
Proof. by split. Qed.

Lemma same_objects_trans (w1 w2 w3 : World') :
  same_objects w1 w2 -> same_objects w2 w3 -> same_objects w1 w3.
Proof. intros [? ?] [? ?]. split; congruence. Qed.

Lemma job_callback_same_objects (t : Thread) (job : Job Configuration Budget) (w : World') :
  same_objects w (world_of (job_callback t job w)).
Proof.
  unfold job_callback, bind, with_thread_cond, new_result.
  repeat (case_match; cbn in *; simplify_eq); by split.
Qed.

Lemma adjust_queue_size_same_objects (t : Thread) (arg : option Z) (w : World') :
  same_objects w (world_of (adjust_queue_size t arg w)).
Proof.
  unfold adjust_queue_size, with_thread_cond.
  repeat (case_match; cbn in *; simplify_eq); by split.
Qed.

Lemma env_step_same_objects (e : EnvEvent Configuration Budget) (w : World') :
  same_objects w (env_step e w).
Proof.
  destruct e; cbn.
  - apply job_callback_same_objects.
  - by split.
  - apply adjust_queue_size_same_objects.
  - by split.
Qed.

Lemma await_same_objects (t : Thread) (depth : nat)
    (env : list (EnvEvent Configuration Budget)) (w : World') :
  same_objects w (world_of (await t depth env w)).
Proof.
  revert w. induction env as [|e env IH]; intros w; [by split|].
  destruct e; cbn.
  - eapply same_objects_trans; [apply job_callback_same_objects | apply IH].
  - eapply same_objects_trans; [|apply IH]. by split.
  - eapply same_objects_trans; [apply adjust_queue_size_same_objects | apply IH].
  - repeat case_match; cbn.
    + apply IH.
    + eapply same_objects_trans; [|apply IH]. by split.
    + by split.
Qed.

Lemma queue_wait_same_objects (t : Thread)
    (env : list (EnvEvent Configuration Budget)) (w : World') :
  same_objects w (world_of (_queue_wait t env w)).
Proof.
  unfold _queue_wait. repeat case_match; cbn; try by split.
  eapply same_objects_trans; [|apply await_same_objects]. by split.
Qed.

Lemma scan_same_objects (idxs : list nat) (l : Locals) (w : World') :
  same_objects w (world_of (scan idxs l w)).
Proof.
  revert l w. induction idxs as [|idx rest IH]; intros l w; cbn; [by split|].
  repeat case_match; cbn; try by split.
  eapply same_objects_trans; [|apply IH]. by split.
Qed.

Lemma pass_same_objects (scope : Scope) (env : list (EnvEvent Configuration Budget))
    (l : Locals) (w : World') :
  same_objects w (world_of (pass scope env l w)).
Proof.
  unfold pass, bind.
  pose proof (scan_same_objects (active_iterations w) l w) as Hscan.
  destruct (scan (active_iterations w) l w) as [l1 w1| | |]; cbn in *; try done.
  destruct (l_next_run l1) as [[[[config_id cfg] budget]|]|]; cbn; try done.
  - eapply same_objects_trans; [exact Hscan|].
    unfold with_thread_cond. repeat (case_match; cbn in *; simplify_eq); by split.
  - destruct (l_n_iterations l1 >? 0).
    + destruct scope; cbn; [|done].
      eapply same_objects_trans; [exact Hscan|]. by split.
    + eapply same_objects_trans; [exact Hscan|].
      pose proof (queue_wait_same_objects scheduler env w1) as Hwait.
      by destruct (_queue_wait scheduler env w1).
Qed.

Lemma run_loop_same_objects (scope : Scope) (fuel : nat)
    (env : list (EnvEvent Configuration Budget)) (l : Locals) (w : World') :
  same_objects w (world_of (run_loop scope fuel env l w)).
Proof.
  revert env l w. induction fuel as [|fuel IH]; intros env l w; cbn; [by split|].
  pose proof (pass_same_objects scope env l w) as Hpass.
  destruct (pass scope env l w) as [[env' l'|] w1| | |]; cbn in *; try done.
  eapply same_objects_trans; [exact Hpass | apply IH].
Qed.

Lemma deepcopy_data_spec (ks : list nat) (w w' : World') (refs : list Ref) :
  deepcopy_data ks w = Some (refs, w') ->
  iterations w' = iterations w
  /\ config w' = config w
  /\ copies w `prefix_of` copies w'
  /\ length refs = length ks
  /\ forall p k, ks !! p = Some k ->
       exists it, iterations w !! k = Some it
         /\ refs !! p = Some (RefCopy (length (copies w) + p))
         /\ copies w' !! (length (copies w) + p)%nat = Some (ObjData (data it)).
Proof.
  revert w w' refs. induction ks as [|k ks IH]; intros w w' refs Hcopy; cbn in Hcopy.
  - inversion Hcopy; subst. repeat split; done.
  - unfold deepcopy in Hcopy. cbn in Hcopy.
    destruct (iterations w !! k) as [it|] eqn:Hk; cbn in Hcopy; [|discriminate].
    set (w1 := set_copies (copies w ++ [ObjData (data it)]) w) in Hcopy.
    destruct (deepcopy_data ks w1) as [[rs w2]|] eqn:Hrest; [|discriminate].
    inversion Hcopy; subst refs w2.
    destruct (IH _ _ _ Hrest) as (Hits & Hcfg & Hpre & Hlen & Hat).
    assert (Hlen1 : length (copies w1) = S (length (copies w)))
      by (subst w1; cbn; rewrite length_app; cbn; lia).
    split; [done|]. split; [done|]. split.
    { etrans; [|exact Hpre]. subst w1; cbn. by apply prefix_app_r. }
    split; [cbn; by rewrite Hlen|].
    intros p k' Hp. destruct p as [|p]; cbn in Hp.
    + inversion Hp; subst k'. exists it. split; [done|].
      rewrite Nat.add_0_r. split; [done|].
      eapply prefix_lookup_Some; [|exact Hpre].
      subst w1; cbn. rewrite lookup_app_r by lia.
      by rewrite Nat.sub_diag.
    + destruct (Hat p k' Hp) as (it' & Hk' & Hr & Hc).
      exists it'. split; [done|]. rewrite Hlen1 in Hr, Hc.
      replace (length (copies w) + S p)%nat with (S (length (copies w)) + p)%nat by lia.
      by split.
Qed.

(** C10: when [run] returns, the result lists one reference for each
    iteration, in the order of the iteration list; each reference is to an
    object that [copy.deepcopy] allocated during this return and that holds
    the data of its iteration as it was then, and it goes on holding that
    data in every later state that still has the copies, whatever has
    happened to the iterations and their data stores by then. The
    configuration of the result is [self.config] itself, with the time
    reference latched. *)
Theorem run_returns_snapshots
    (scope : Scope) (fuel : nat) (env : list (EnvEvent Configuration Budget))
    (now : Time) (n_iterations : Z) (w w' : World') (res : HB_result) :
  run scope fuel env now n_iterations w = Ret res w' ->
  length (HB_iteration_data res) = length (iterations w')
  /\ (forall k it, iterations w' !! k = Some it ->
        exists c,
          HB_iteration_data res !! k = Some (RefCopy c)
          /\ (length (copies w) <= c)%nat
          /\ forall w'' : World',
               copies w' `prefix_of` copies w'' ->
               deref w'' (RefCopy c) = Some (ObjData (data it)))
  /\ HB_config res = RefConfig
  /\ deref w' (HB_config res) = Some (ObjConfig (config w'))
  /\ config w' = match time_ref w with
                 | None => mkRunConfig (Some now)
                 | Some _ => config w
                 end.
Proof.
  intros Hrun. unfold run in Hrun.
  set (w0 := match time_ref w with
             | None => set_config (mkRunConfig (Some now)) (set_time_ref (Some now) w)
             | Some _ => w
             end) in Hrun.
  assert (Hw0 : config w0 = match time_ref w with
                            | None => mkRunConfig (Some now)
                            | Some _ => config w
                            end /\ copies w0 = copies w)
    by (subst w0; by destruct (time_ref w)).
  destruct Hw0 as [Hcfg0 Hcp0].
  destruct (cond_acquire scheduler (thread_cond w0)) as [c0|]; [|discriminate].
  set (w1 := log (EvAcquire scheduler) (set_thread_cond c0 w0)) in Hrun.
  pose proof (run_loop_same_objects scope fuel env (mkLocals None None n_iterations) w1)
    as [Hcfg Hcp].
  destruct (run_loop scope fuel env (mkLocals None None n_iterations) w1)
    as [[] w2| | |]; try discriminate.
  cbn in Hcfg, Hcp.
  destruct (cond_release scheduler (thread_cond w2)) as [c2|]; [|discriminate].
  set (w3 := log (EvRelease scheduler) (set_thread_cond c2 w2)) in Hrun.
  destruct (deepcopy_data (seq 0 (length (iterations w3))) w3) as [[refs w4]|] eqn:Hcopy;
    [|discriminate].
  inversion Hrun; subst res w'. cbn.
  destruct (deepcopy_data_spec _ _ _ _ Hcopy) as (Hits & Hcfg4 & Hpre & Hlen & Hat).
  assert (Hcp3 : copies w3 = copies w) by (cbn; congruence).
  split; [rewrite Hlen, length_seq; by rewrite Hits|].
  split.
  { intros k it Hk. rewrite Hits in Hk.
    destruct (Hat k k) as (it' & Hk' & Hr & Hc).
    { apply lookup_seq. split; [done|]. eapply lookup_lt_Some; eauto. }
    assert (it' = it) by congruence. subst it'.
    exists (length (copies w3) + k)%nat. split; [done|].
    split; [rewrite Hcp3; lia|].
    intros w'' Hpre''. cbn. eapply prefix_lookup_Some; eauto. }
  split; [done|]. split; [done|].
  rewrite Hcfg4. cbn. rewrite Hcfg. cbn. exact Hcfg0.
Qed.

(** A reference to a data store itself follows the store: what it points to
    is whatever the iteration holds now. *)
Remark deref_iter_data_follows (w : World') (its : list Iter) (k : nat) :
  deref (set_iterations its w) (RefIterData k)
  = (fun it => ObjData (data it)) <$> its !! k.
Proof. reflexivity. Qed.

(** * Further properties of the methods *)

(** ** [active_iterations] *)

Lemma filter_seq_sorted (f : nat -> bool) (start len : nat) :
  StronglySorted lt (List.filter f (seq start len)).
Proof.
  revert start. induction len as [|len IH]; intros start; cbn; [constructor|].
  destruct (f start); [|apply IH].
  constructor; [apply IH|].
  apply List.Forall_forall. intros x Hin.
  apply filter_In in Hin as [Hin _]. apply in_seq in Hin. lia.
Qed.

Lemma In_active_iterations (w : World') (i : nat) :
  In i (active_iterations w)
  <-> exists it, iterations w !! i = Some it /\ is_finished it = false.
Proof.
  unfold active_iterations. rewrite filter_In, in_seq. unfold is_active.
  split.
  - intros [_ Hact]. destruct (iterations w !! i) as [it|]; [|discriminate].
    exists it. split; [done|]. by destruct (is_finished it).
  - intros (it & Hi & Hfin). rewrite Hi, Hfin. split; [|done].
    apply lookup_lt_Some in Hi. lia.
Qed.

(** [active_iterations] returns the positions of the iterations that are not
    finished, each once, in increasing order. *)
Theorem active_iterations_spec (w : World') :
  (forall i, In i (active_iterations w)
             <-> exists it, iterations w !! i = Some it /\ is_finished it = false)
  /\ StronglySorted lt (active_iterations w).
Proof.
  split; [apply In_active_iterations | apply filter_seq_sorted].
Qed.

Lemma active_iterations_ext (w1 w2 : World') :
  iterations w1 = iterations w2 -> active_iterations w1 = active_iterations w2.
Proof.
  intros Heq. unfold active_iterations. rewrite Heq.
  apply filter_ext. intros i. unfold is_active. by rewrite Heq.
Qed.

(** ** A scan that finds nothing *)

Lemma scan_all_none (idxs : list nat) (l : Locals) (w : World') :
  List.NoDup idxs ->
  (forall j, In j idxs ->
     exists it_j, iterations w !! j = Some it_j /\ fst (get_next_run it_j) = None) ->
  exists l1 w1,
    scan idxs l w = Ret l1 w1
    /\ l_next_run l1 = match idxs with [] => l_next_run l | _ :: _ => Some None end
    /\ l_i l1 = match last idxs with Some i => Some i | None => l_i l end
    /\ l_n_iterations l1 = l_n_iterations l
    /\ trace w1 = trace w ++ map EvGetNextRun idxs.
Proof.
  revert l w. induction idxs as [|j idxs IH]; intros l w Hnd Hnone.
  - exists l, w. cbn. by rewrite app_nil_r.
  - destruct (Hnone j) as (it_j & Hj & Hget); [by left|].
    cbn -[last]. rewrite Hj. destruct (get_next_run it_j) as [r it_j'] eqn:Hg.
    cbn in Hget. subst r.
    inversion Hnd as [|? ? Hjn Hnd']; subst.
    set (l' := mkLocals (Some None) (Some j) (l_n_iterations l)).
    set (w' := log (EvGetNextRun j)
                   (set_iterations (<[j := it_j']> (iterations w)) w)).
    destruct (IH l' w' Hnd') as (l1 & w1 & Hscan & Hnr & Hi & Hn & Htr).
    { intros j' Hin. destruct (Hnone j') as (it0 & Hj0 & Hg0); [by right|].
      exists it0. split; [|done]. subst w'; cbn.
      rewrite list_lookup_insert_ne; [done|]. by intros ->. }
    exists l1, w1. split; [exact Hscan|].
    split; [rewrite Hnr; by destruct idxs|].
    split; [rewrite Hi, last_cons; subst l'; cbn; by destruct (last idxs)|].
    split; [done|].
    rewrite Htr. subst w'; cbn. by rewrite <- app_assoc.
Qed.

(** When every unfinished iteration answers [get_next_run] with [None], the
    scan asks each of them once, in increasing order of position, and no
    finished one; afterwards [next_run] is bound to [None] and [i] to the
    last position asked. When no iteration is active at all, nothing is asked
    and both locals stay as they were. *)
Theorem scan_nothing_runnable (l : Locals) (w : World') :
  (forall j it_j, iterations w !! j = Some it_j -> is_finished it_j = false ->
     fst (get_next_run it_j) = None) ->
  exists l1 w1,
    scan (active_iterations w) l w = Ret l1 w1
    /\ l_next_run l1 = match active_iterations w with
                       | [] => l_next_run l
                       | _ :: _ => Some None
                       end
    /\ l_i l1 = match last (active_iterations w) with
                | Some i => Some i
                | None => l_i l
                end
    /\ trace w1 = trace w ++ map EvGetNextRun (active_iterations w).
Proof.
  intros Hnone.
  destruct (scan_all_none (active_iterations w) l w) as (l1 & w1 & Hs & Hnr & Hi & _ & Htr).
  - apply List.NoDup_filter, seq_NoDup.
  - intros j Hin. apply In_active_iterations in Hin as (it & Hj & Hfin).
    exists it. split; [done|]. by apply (Hnone j).
  - by exists l1, w1.
Qed.

(** ** [run] when no iteration is active *)

(** When [run] is called on an object whose iterations are all finished (or
    that has none), whatever the budget, the body of the [for] never runs and
    [run] raises UnboundLocalError: nothing is asked, submitted or appended,
    and the lock it took is still held. *)
Theorem run_no_active_iteration_unbound
    (scope : Scope) (fuel : nat) (env : list (EnvEvent Configuration Budget))
    (now : Time) (n_iterations : Z) (w : World') :
  active_iterations w = [] ->
  lock_owner (thread_cond w) = None ->
  exists w',
    run scope (S fuel) env now n_iterations w = Raise UnboundLocalError w'
    /\ iterations w' = iterations w
    /\ num_running_jobs w' = num_running_jobs w
    /\ dispatcher w' = dispatcher w
    /\ lock_owner (thread_cond w') = Some (scheduler, 1%nat)
    /\ trace w' = trace w ++ [EvAcquire scheduler].
Proof.
  intros Hact Hfree. unfold run, cond_acquire.
  destruct (time_ref w); cbn -[active_iterations]; rewrite Hfree;
    cbn -[active_iterations]; unfold pass, bind;
    rewrite (active_iterations_ext _ w) by reflexivity;
    cbn -[active_iterations]; rewrite Hact; cbn;
    eexists; (split; [reflexivity|]); by cbn.
Qed.

(** ** [job_callback] on ids at the edges *)

(** A job whose id names no iteration ([id[0]] at or beyond the length of
    the list, or below minus the length): the callback has already lowered
    the counter, and called [notify] if the new count is at or below [low],
    when [self.iterations[job.id[0]]] raises IndexError. The [with] gives the
    lock back; [register_result] and [new_result] are never called. *)
Theorem job_callback_unknown_iteration
    (t : Thread) (job : Job Configuration Budget) (w : World') :
  let n := num_running_jobs w - 1 in
  let wake := n <=? fst (job_queue_sizes w) in
  Z.of_nat (length (iterations w)) <= fst (fst (id job))
  \/ fst (fst (id job)) < - Z.of_nat (length (iterations w)) ->
  lock_owner (thread_cond w) = None ->
  exists w',
    job_callback t job w = Raise IndexError w'
    /\ num_running_jobs w' = n
    /\ iterations w' = iterations w
    /\ lock_owner (thread_cond w') = None
    /\ trace w'
       = trace w ++ [EvAcquire t; EvRunningJobs n]
         ++ (if wake then [EvNotify] else []) ++ [EvRelease t].
Proof.
  intros n wake Hout Hfree.
  assert (Hpy : py_position (iterations w) (fst (fst (id job))) = None).
  { unfold py_position.
    destruct Hout as [Hbig|Hsmall].
    - assert ((fst (fst (id job)) <? Z.of_nat (length (iterations w))) = false) as ->
        by lia.
      rewrite andb_false_r.
      assert ((fst (fst (id job)) <? 0) = false) as -> by lia.
      by rewrite andb_false_r.
    - assert ((0 <=? fst (fst (id job))) = false) as -> by lia.
      assert ((- Z.of_nat (length (iterations w)) <=? fst (fst (id job))) = false) as ->
        by lia.
      done. }
  unfold job_callback, bind, with_thread_cond, cond_acquire. rewrite Hfree.
  cbn. fold n. fold wake. destruct wake; cbn; rewrite Hpy; cbn;
    rewrite ?Nat.eqb_refl; cbn;
    eexists; (split; [reflexivity|]); cbn; rewrite <- !app_assoc; by repeat split.
Qed.

(** A job whose [id[0]] is negative but not below minus the length of the
    list is handed to the iteration counted from the end, as Python indexes
    a list: [-1] is the last iteration. *)
Theorem job_callback_negative_index
    (t : Thread) (job : Job Configuration Budget) (w : World') (it : Iter) :
  let k := Z.to_nat (Z.of_nat (length (iterations w)) + fst (fst (id job))) in
  - Z.of_nat (length (iterations w)) <= fst (fst (id job)) < 0 ->
  iterations w !! k = Some it ->
  lock_owner (thread_cond w) = None ->
  exists w',
    job_callback t job w = Ret tt w'
    /\ iterations w' = <[k := register_result job it]> (iterations w)
    /\ num_running_jobs w' = num_running_jobs w - 1
    /\ EvRegisterResult k job ∈ trace w'.
Proof.
  intros k Hneg Hit Hfree.
  assert (Hpy : py_position (iterations w) (fst (fst (id job))) = Some k).
  { unfold py_position.
    assert ((0 <=? fst (fst (id job))) = false) as -> by lia.
    assert ((- Z.of_nat (length (iterations w)) <=? fst (fst (id job))) = true) as ->
      by lia.
    assert ((fst (fst (id job)) <? 0) = true) as -> by lia.
    reflexivity. }
  unfold job_callback, bind, with_thread_cond, cond_acquire. rewrite Hfree.
  cbn. destruct (num_running_jobs w - 1 <=? fst (job_queue_sizes w)); cbn;
    rewrite Hpy, Hit; cbn; rewrite ?Nat.eqb_refl; cbn;
    eexists; (split; [reflexivity|]); cbn; (split; [done|]); (split; [done|]);
    rewrite !elem_of_app, !elem_of_cons; tauto.
Qed.

(** ** The methods and the lock *)

(** A thread holds the lock at depth one at least. *)
Definition lock_wf (c : Condition) : Prop :=
  match lock_owner c with
  | Some (_, O) => False
  | _ => True
  end.

Definition finishes {A} (o : Outcome (Configuration := Configuration) (Budget := Budget)
                                     (Data := Data) (Iter := Iter) (Time := Time) A)
  : Prop :=
  match o with
  | Ret _ _ | Raise _ _ => True
  | Blocked _ | OutOfFuel _ => False
  end.

Lemma with_thread_cond_lock {A} (t : Thread) (body : M A) (w : World') :
  lock_available t (thread_cond w) ->
  lock_wf (thread_cond w) ->
  (forall w0, finishes (body w0)
              /\ lock_owner (thread_cond (world_of (body w0))) = lock_owner (thread_cond w0)) ->
  finishes (with_thread_cond t body w)
  /\ lock_owner (thread_cond (world_of (with_thread_cond t body w)))
     = lock_owner (thread_cond w).
Proof.
  intros Hav Hwf Hbody. unfold with_thread_cond.
  destruct (cond_acquire_available _ _ Hav) as [d Hacq]. rewrite Hacq.
  set (w0 := log (EvAcquire t) (set_thread_cond _ w)).
  destruct (Hbody w0) as [Hfin Hlock].
  assert (Hd : lock_owner (thread_cond w)
               = match d with O => None | S _ => Some (t, d) end).
  { unfold cond_acquire in Hacq. unfold lock_wf, lock_available in *.
    destruct (lock_owner (thread_cond w)) as [[o d0]|].
    - subst o. rewrite Nat.eqb_refl in Hacq. inversion Hacq; subst d0.
      by destruct d.
    - inversion Hacq; by subst d. }
  destruct (body w0) as [a w1|e w1|w1|w1]; cbn in *; try done.
  - unfold cond_release. rewrite Hlock. subst w0; cbn. rewrite Nat.eqb_refl. cbn.
    by rewrite Hd.
  - unfold cond_release. rewrite Hlock. subst w0; cbn. rewrite Nat.eqb_refl. cbn.
    by rewrite Hd.
Qed.

Lemma submit_job_lock (t : Thread) (next_run : Run Configuration Budget) (w : World') :
  lock_available t (thread_cond w) ->
  lock_wf (thread_cond w) ->
  finishes (_submit_job t next_run w)
  /\ lock_owner (thread_cond (world_of (_submit_job t next_run w)))
     = lock_owner (thread_cond w).
Proof.
  intros Hav Hwf. destruct next_run as [[config_id cfg] budget]. unfold _submit_job.
  apply with_thread_cond_lock; try done; intros w0; by cbn.
Qed.

Lemma job_callback_lock (t : Thread) (job : Job Configuration Budget) (w : World') :
  lock_available t (thread_cond w) ->
  lock_wf (thread_cond w) ->
  finishes (job_callback t job w)
  /\ lock_owner (thread_cond (world_of (job_callback t job w)))
     = lock_owner (thread_cond w).
Proof.
  intros Hav Hwf. unfold job_callback, bind.
  pose proof (with_thread_cond_lock t
    (fun w0 : World' =>
       let w1 := set_num_running_jobs (num_running_jobs w0 - 1) w0 in
       let w2 := if num_running_jobs w1 <=? fst (job_queue_sizes w1)
                 then notify w1 else w1 in
       match py_position (iterations w2) (fst (fst (id job))) with
       | Some k =>
           match iterations w2 !! k with
           | Some it =>
               Ret tt (log (EvRegisterResult k job)
                         (set_iterations (<[k := register_result job it]> (iterations w2)) w2))
           | None => Raise IndexError w2
           end
       | None => Raise IndexError w2
       end) w Hav Hwf) as Hbody.
  cbn zeta in Hbody. destruct Hbody as [Hfin Hlock].
  { intros w0. repeat case_match; by cbn. }
  match goal with
  | |- finishes (match ?o with _ => _ end) /\ _ => destruct o
  end; by cbn in *.
Qed.

Lemma adjust_queue_size_lock (t : Thread) (arg : option Z) (w : World') :
  lock_available t (thread_cond w) ->
  lock_wf (thread_cond w) ->
  finishes (adjust_queue_size t arg w)
  /\ lock_owner (thread_cond (world_of (adjust_queue_size t arg w)))
     = lock_owner (thread_cond w).
Proof.
  intros Hav Hwf. unfold adjust_queue_size. destruct (dynamic_queue_size w); [|by cbn].
  apply with_thread_cond_lock; try done; intros w0; by cbn.
Qed.

(** [_submit_job], [job_callback] and [adjust_queue_size], called by a thread
    that can take the lock, return or raise, and in either case leave the
    lock as they found it: free if it was free, held at the same depth if the
    caller held it already. *)
Theorem methods_give_the_lock_back
    (t : Thread) (next_run : Run Configuration Budget)
    (job : Job Configuration Budget) (arg : option Z) (w : World') :
  lock_available t (thread_cond w) ->
  lock_wf (thread_cond w) ->
  (finishes (_submit_job t next_run w)
   /\ lock_owner (thread_cond (world_of (_submit_job t next_run w)))
      = lock_owner (thread_cond w))
  /\ (finishes (job_callback t job w)
      /\ lock_owner (thread_cond (world_of (job_callback t job w)))
         = lock_owner (thread_cond w))
  /\ (finishes (adjust_queue_size t arg w)
      /\ lock_owner (thread_cond (world_of (adjust_queue_size t arg w)))
         = lock_owner (thread_cond w)).
Proof.
  intros Hav Hwf. split; [|split].
  - by apply submit_job_lock.
  - by apply job_callback_lock.
  - by apply adjust_queue_size_lock.
Qed.

(** ** Waiting for room *)

Lemma await_returns_drained (t : Thread) (depth : nat)
    (env env' : list (EnvEvent Configuration Budget)) (w w' : World') :
  await t depth env w = Ret env' w' ->
  num_running_jobs w' <= fst (job_queue_sizes w')
  /\ lock_owner (thread_cond w') = Some (t, depth)
  /\ is_waiting t w' = false
  /\ exists done, env = done ++ env'.
Proof.
  revert w. induction env as [|e env IH]; intros w Hret; [discriminate|].
  destruct e; cbn in Hret.
  - destruct (IH _ Hret) as (? & ? & ? & done & ->).
    repeat split; try done. by exists (EnvJobDone t0 j :: done).
  - destruct (IH _ Hret) as (? & ? & ? & done & ->).
    repeat split; try done. by exists (EnvPool n :: done).
  - destruct (IH _ Hret) as (? & ? & ? & done & ->).
    repeat split; try done. by exists (EnvRescale t0 number_of_workers0 :: done).
  - destruct (is_waiting t w) eqn:Hwaiting.
    + destruct (IH _ Hret) as (? & ? & ? & done & ->).
      repeat split; try done. by exists (EnvResume :: done).
    + destruct (num_running_jobs w >? fst (job_queue_sizes w)) eqn:Htest.
      * destruct (IH _ Hret) as (? & ? & ? & done & ->).
        repeat split; try done. by exists (EnvResume :: done).
      * inversion Hret; subst env' w'. cbn in *.
        split; [lia|]. split; [done|]. split; [done|]. by exists [EnvResume].
Qed.

(** When [_queue_wait] returns, it has either not waited at all (fewer jobs
    in flight than [high], or no more than [low]) and changed nothing, or it
    has waited and returns with the in-flight count at or below the [low] of
    that moment, the lock held by the caller at the depth it had, and the
    caller no longer among the waiters. *)
Theorem queue_wait_returns_drained (t : Thread)
    (env env' : list (EnvEvent Configuration Budget)) (w w' : World') :
  _queue_wait t env w = Ret env' w' ->
  (w' = w /\ env' = env
   /\ (num_running_jobs w < snd (job_queue_sizes w)
       \/ num_running_jobs w <= fst (job_queue_sizes w)))
  \/ (num_running_jobs w' <= fst (job_queue_sizes w')
      /\ lock_owner (thread_cond w') = lock_owner (thread_cond w)
      /\ is_waiting t w' = false
      /\ snd (job_queue_sizes w) <= num_running_jobs w
      /\ fst (job_queue_sizes w) < num_running_jobs w).
Proof.
  unfold _queue_wait. intros Hret.
  destruct (num_running_jobs w >=? snd (job_queue_sizes w)) eqn:Hhigh.
  - destruct (num_running_jobs w >? fst (job_queue_sizes w)) eqn:Hlow.
    + destruct (lock_owner (thread_cond w)) as [[o depth]|] eqn:Hown; [|discriminate].
      destruct (Nat.eqb o t) eqn:Ho; [|discriminate].
      apply Nat.eqb_eq in Ho. subst o.
      apply await_returns_drained in Hret as (Hn & Hl & Hw & _).
      right. repeat split; try done; lia.
    + inversion Hret; subst. left. repeat split; try done. right. lia.
  - inversion Hret; subst. left. repeat split; try done. left. lia.
Qed.


(** The events that cannot wake a waiter: a change of the pool, an attempt to
    resume, and a report of the pool size while dynamic sizes are off. *)
Definition quiet (dynamic : bool) (e : EnvEvent Configuration Budget) : bool :=
  match e with
  | EnvJobDone _ _ => false
  | EnvRescale _ _ => negb dynamic
  | EnvPool _ | EnvResume => true
  end.

Lemma await_sleeps (t : Thread) (depth : nat)
    (env : list (EnvEvent Configuration Budget)) (w : World') :
  is_waiting t w = true ->
  forallb (quiet (dynamic_queue_size w)) env = true ->
  exists w',
    await t depth env w = Blocked w'
    /\ num_running_jobs w' = num_running_jobs w
    /\ thread_cond w' = thread_cond w.
Proof.
  revert w. induction env as [|e env IH]; intros w Hwait Hquiet.
  - by exists w.
  - cbn in Hquiet. apply andb_prop in Hquiet as [He Hquiet].
    destruct e as [t' j|n|t' arg|]; cbn in He; try discriminate.
    + cbn [await env_step].
      destruct (IH (set_dispatcher (mkDispatcher n (accepted (dispatcher w))) w))
        as (w' & Hb & Hn & Hc); try done.
      by exists w'.
    + cbn [await env_step]. unfold adjust_queue_size.
      destruct (dynamic_queue_size w) eqn:Hdyn; [discriminate|]. cbn [world_of].
      apply IH; [done|]. by rewrite Hdyn.
    + cbn [await]. rewrite Hwait. by apply IH.
Qed.

(** A loop that has to wait (the in-flight count at or above [high] and above
    [low]) sleeps for good when nothing but [quiet] events follow: no change
    of the pool, and with dynamic sizes off no report of the pool size, ever
    wakes it. It stays among the waiters with the lock given up and the count
    as it was. *)
Theorem queue_wait_sleeps_without_completion (t : Thread) (depth : nat)
    (env : list (EnvEvent Configuration Budget)) (w : World') :
  lock_owner (thread_cond w) = Some (t, depth) ->
  snd (job_queue_sizes w) <= num_running_jobs w ->
  fst (job_queue_sizes w) < num_running_jobs w ->
  forallb (quiet (dynamic_queue_size w)) env = true ->
  exists w',
    _queue_wait t env w = Blocked w'
    /\ num_running_jobs w' = num_running_jobs w
    /\ is_waiting t w' = true
    /\ lock_owner (thread_cond w') = None.
Proof.
  intros Hown Hhigh Hlow Hquiet. unfold _queue_wait.
  assert ((num_running_jobs w >=? snd (job_queue_sizes w)) = true) as -> by lia.
  assert ((num_running_jobs w >? fst (job_queue_sizes w)) = true) as -> by lia.
  rewrite Hown, Nat.eqb_refl.
  assert (Hwaiting : is_waiting t (begin_wait t w) = true).
  { unfold is_waiting, begin_wait. cbn. rewrite existsb_app. cbn.
    by rewrite Nat.eqb_refl, orb_true_r. }
  destruct (await_sleeps t depth env (begin_wait t w) Hwaiting Hquiet)
    as (w' & Hb & Hn & Hc).
  exists w'. split; [done|]. split; [done|].
  unfold is_waiting in *. rewrite Hc. by split.
Qed.




(** ** What the loop writes *)

(** The writes the methods make to the state, one at a time. [appends] tells
    whether line 193 can append an iteration, which takes a factory bound to
    the name it calls. *)
Inductive write (appends : bool) : World' -> World' -> Prop :=
| write_log (e : Event Configuration Budget) (w : World') :
    write appends w (log e w)
| write_thread_cond (c : Condition) (w : World') :
    write appends w (set_thread_cond c w)
| write_num_running_jobs (n : Z) (w : World') :
    write appends w (set_num_running_jobs n w)
| write_iteration (k : nat) (it : Iter) (w : World') :
    write appends w (set_iterations (<[k := it]> (iterations w)) w)
| write_append (it : Iter) (w : World') :
    appends = true ->
    write appends w (set_iterations (iterations w ++ [it]) w)
| write_accepted (j : Job Configuration Budget) (w : World') :
    write appends w
      (set_dispatcher (mkDispatcher (number_of_workers (dispatcher w))
                                    (accepted (dispatcher w) ++ [j])) w)
| write_pool (n : Z) (w : World') :
    write appends w (set_dispatcher (mkDispatcher n (accepted (dispatcher w))) w)
| write_job_queue_sizes (nw : Z) (w : World') :
    dynamic_queue_size w = true ->
    write appends w
      (set_job_queue_sizes (fst (user_job_queue_sizes w) + nw,
                            snd (user_job_queue_sizes w) + nw) w)
| write_copy (o : Obj Data Time) (w : World') :
    write appends w (set_copies (copies w ++ [o]) w).

Ltac writes_chain :=
  repeat first [ apply rtc_refl
               | eapply rtc_r; [|by (econstructor; eauto)] ].

Ltac unfold_methods :=
  unfold job_callback, adjust_queue_size, _submit_job, new_result, bind, ret,
    with_thread_cond, notify, notify_all, begin_wait, end_wait, submit_job;
  cbv beta iota zeta.

Lemma with_thread_cond_writes {A} (a : bool) (t : Thread) (body : M A) (w : World') :
  (forall c, rtc (write a) (log (EvAcquire t) (set_thread_cond c w))
                 (world_of (body (log (EvAcquire t) (set_thread_cond c w))))) ->
  rtc (write a) w (world_of (with_thread_cond t body w)).
Proof.
  intros Hbody. unfold with_thread_cond.
  destruct (cond_acquire t (thread_cond w)) as [c|]; [|apply rtc_refl].
  specialize (Hbody c).
  set (w0 := log (EvAcquire t) (set_thread_cond c w)) in *.
  assert (H0 : rtc (write a) w w0) by (subst w0; writes_chain).
  destruct (body w0) as [x w1|e w1|w1|w1]; cbn [world_of] in *;
    try (etrans; [exact H0 | exact Hbody]);
    destruct (cond_release t (thread_cond w1)); cbn [world_of];
    (etrans; [exact H0|]); (etrans; [exact Hbody|]); writes_chain.
Qed.

Lemma job_callback_writes (a : bool) (t : Thread) (job : Job Configuration Budget)
    (w : World') :
  rtc (write a) w (world_of (job_callback t job w)).
Proof.
  unfold job_callback, bind.
  match goal with
  | |- context [with_thread_cond t ?body w] =>
      pose proof (with_thread_cond_writes a t body w) as Hlock;
      destruct (with_thread_cond t body w) as [x w1|e w1|w1|w1]
  end; cbn [world_of] in *.
  2-4: apply Hlock.
  1: etrans; [apply Hlock|unfold new_result; cbn [world_of]; writes_chain].
  all: intros c; set (w0 := log (EvAcquire t) (set_thread_cond c w));
    cbv beta iota zeta;
    destruct (num_running_jobs (set_num_running_jobs (num_running_jobs w0 - 1) w0)
              <=? fst (job_queue_sizes (set_num_running_jobs (num_running_jobs w0 - 1) w0)));
    unfold notify;
    repeat (case_match; cbn [world_of]); writes_chain.
Qed.

Lemma adjust_queue_size_writes (a : bool) (t : Thread) (arg : option Z) (w : World') :
  rtc (write a) w (world_of (adjust_queue_size t arg w)).
Proof.
  unfold adjust_queue_size. destruct (dynamic_queue_size w) eqn:Hdyn; [|apply rtc_refl].
  apply with_thread_cond_writes. intros c. cbv beta iota zeta. cbn [world_of].
  unfold notify_all. writes_chain.
Qed.

Lemma submit_job_writes (a : bool) (t : Thread) (next_run : Run Configuration Budget)
    (w : World') :
  rtc (write a) w (world_of (_submit_job t next_run w)).
Proof.
  destruct next_run as [[config_id cfg] budget]. unfold _submit_job.
  apply with_thread_cond_writes. intros c. unfold submit_job.
  cbv beta iota zeta. cbn [world_of]. writes_chain.
Qed.

Lemma env_step_writes (a : bool) (e : EnvEvent Configuration Budget) (w : World') :
  rtc (write a) w (env_step e w).
Proof.
  destruct e; cbn [env_step].
  - apply job_callback_writes.
  - writes_chain.
  - apply adjust_queue_size_writes.
  - apply rtc_refl.
Qed.

Lemma await_writes (a : bool) (t : Thread) (depth : nat)
    (env : list (EnvEvent Configuration Budget)) (w : World') :
  rtc (write a) w (world_of (await t depth env w)).
Proof.
  revert w. induction env as [|e env IH]; intros w; [apply rtc_refl|].
  destruct e; cbn [await].
  - etrans; [apply (env_step_writes a (EnvJobDone t0 j))|apply IH].
  - etrans; [apply (env_step_writes a (EnvPool n))|apply IH].
  - etrans; [apply (env_step_writes a (EnvRescale t0 number_of_workers0))|apply IH].
  - destruct (is_waiting t w); [apply IH|].
    destruct (num_running_jobs (end_wait t depth w)
              >? fst (job_queue_sizes (end_wait t depth w))).
    + etrans; [|apply IH]. unfold begin_wait, end_wait. writes_chain.
    + cbn [world_of]. unfold end_wait. writes_chain.
Qed.

Lemma queue_wait_writes (a : bool) (t : Thread)
    (env : list (EnvEvent Configuration Budget)) (w : World') :
  rtc (write a) w (world_of (_queue_wait t env w)).
Proof.
  unfold _queue_wait. repeat case_match; cbn [world_of]; try apply rtc_refl.
  etrans; [|apply await_writes]. unfold begin_wait. writes_chain.
Qed.

Lemma scan_writes (a : bool) (idxs : list nat) (l : Locals) (w : World') :
  rtc (write a) w (world_of (scan idxs l w)).
Proof.
  revert l w. induction idxs as [|idx rest IH]; intros l w; cbn [scan];
    [apply rtc_refl|].
  destruct (iterations w !! idx) as [it|]; [|apply rtc_refl].
  destruct (get_next_run it) as [[r|] it'].
  - cbn [world_of]. writes_chain.
  - etrans; [|apply IH]. writes_chain.
Qed.

Definition can_append (scope : Scope (Iter := Iter)) : bool :=
  match scope with
  | Some _ => true
  | None => false
  end.

Lemma pass_writes (scope : Scope) (env : list (EnvEvent Configuration Budget))
    (l : Locals) (w : World') :
  rtc (write (can_append scope)) w (world_of (pass scope env l w)).
Proof.
  unfold pass, bind.
  pose proof (scan_writes (can_append scope) (active_iterations w) l w) as Hscan.
  destruct (scan (active_iterations w) l w) as [l1 w1| | |]; cbn [world_of] in *;
    try done.
  destruct (l_next_run l1) as [[next_run|]|]; [| |done].
  - etrans; [exact Hscan|].
    pose proof (submit_job_writes (can_append scope) scheduler next_run w1) as Hsub.
    destruct (_submit_job scheduler next_run w1); cbn [world_of] in *; try done.
    by destruct (active_iterations w0).
  - etrans; [exact Hscan|].
    destruct (l_n_iterations l1 >? 0).
    + destruct scope as [factory|]; cbn [world_of can_append]; [|apply rtc_refl].
      writes_chain.
    + pose proof (queue_wait_writes (can_append scope) scheduler env w1) as Hwait.
      by destruct (_queue_wait scheduler env w1).
Qed.

Lemma run_loop_writes (scope : Scope) (fuel : nat)
    (env : list (EnvEvent Configuration Budget)) (l : Locals) (w : World') :
  rtc (write (can_append scope)) w (world_of (run_loop scope fuel env l w)).
Proof.
  revert env l w. induction fuel as [|fuel IH]; intros env l w; cbn [run_loop];
    [apply rtc_refl|].
  pose proof (pass_writes scope env l w) as Hpass.
  destruct (pass scope env l w) as [[env' l'|] w1| | |]; cbn [world_of] in *; try done.
  etrans; [exact Hpass | apply IH].
Qed.

Lemma deepcopy_data_writes (a : bool) (ks : list nat) (w w' : World')
    (refs : list Ref) :
  deepcopy_data ks w = Some (refs, w') -> rtc (write a) w w'.
Proof.
  revert w refs. induction ks as [|k ks IH]; intros w refs Hcopy; cbn in Hcopy.
  - inversion Hcopy. apply rtc_refl.
  - unfold deepcopy in Hcopy. destruct (deref w (RefIterData k)) as [o|]; [|discriminate].
    destruct (deepcopy_data ks (set_copies (copies w ++ [o]) w)) as [[rs w2]|] eqn:Hrest;
      [|discriminate].
    inversion Hcopy; subst. etrans; [|eapply IH; eauto]. writes_chain.
Qed.

(** What line 169 to 171 make of the state: the time reference is set, in
    [self] and in [self.config], when there is none yet. *)
Definition latched (now : Time) (w : World') : World' :=
  match time_ref w with
  | None => set_config (mkRunConfig (Some now)) (set_time_ref (Some now) w)
  | Some _ => w
  end.

Lemma run_writes (scope : Scope) (fuel : nat)
    (env : list (EnvEvent Configuration Budget)) (now : Time) (n_iterations : Z)
    (w : World') :
  rtc (write (can_append scope)) (latched now w)
      (world_of (run scope fuel env now n_iterations w)).
Proof.
  unfold run. fold (latched now w).
  destruct (cond_acquire scheduler (thread_cond (latched now w))) as [c|];
    [|apply rtc_refl].
  set (w1 := log (EvAcquire scheduler) (set_thread_cond c (latched now w))).
  assert (H1 : rtc (write (can_append scope)) (latched now w) w1)
    by (subst w1; writes_chain).
  pose proof (run_loop_writes scope fuel env (mkLocals None None n_iterations) w1) as Hloop.
  destruct (run_loop scope fuel env (mkLocals None None n_iterations) w1)
    as [[] w2| | |]; cbn [world_of] in *; try (etrans; [exact H1 | exact Hloop]).
  destruct (cond_release scheduler (thread_cond w2)) as [c2|]; cbn [world_of];
    [|etrans; [exact H1 | exact Hloop]].
  set (w3 := log (EvRelease scheduler) (set_thread_cond c2 w2)).
  assert (H3 : rtc (write (can_append scope)) (latched now w) w3).
  { etrans; [exact H1|]. etrans; [exact Hloop|]. subst w3; writes_chain. }
  destruct (deepcopy_data (seq 0 (length (iterations w3))) w3) as [[refs w4]|] eqn:Hcopy;
    cbn [world_of]; [|exact H3].
  etrans; [exact H3|]. eapply deepcopy_data_writes; eauto.
Qed.

Lemma writes_invariant (a : bool) (P : World' -> Prop) (w w' : World') :
  rtc (write a) w w' ->
  P w ->
  (forall x y, write a x y -> P x -> P y) ->
  P w'.
Proof.
  intros Hrtc Hw Hstep. induction Hrtc as [|x y z Hxy _ IH]; [done|].
  apply IH. by eapply Hstep.
Qed.

(** ** What [run] keeps *)


(** The time reference is latched: however [run] ends, [self.time_ref] is
    the one the object had, or, if it had none, the time read at the start of
    this call; [self.config] agrees when it was set by this call and is
    untouched otherwise. *)
Theorem run_latches_time_ref
    (scope : Scope) (fuel : nat) (env : list (EnvEvent Configuration Budget))
    (now : Time) (n_iterations : Z) (w : World') :
  let w' := world_of (run scope fuel env now n_iterations w) in
  time_ref w' = Some (match time_ref w with Some t => t | None => now end)
  /\ config w' = match time_ref w with
                 | Some _ => config w
                 | None => mkRunConfig (Some now)
                 end.
Proof.
  intros w'. subst w'.
  apply (writes_invariant _
           (fun w' => time_ref w' = Some (match time_ref w with Some t => t | None => now end)
                      /\ config w' = match time_ref w with
                                     | Some _ => config w
                                     | None => mkRunConfig (Some now)
                                     end)
           _ _ (run_writes scope fuel env now n_iterations w)).
  - unfold latched. destruct (time_ref w) eqn:Ht; cbn; by rewrite ?Ht.
  - intros x y Hxy Hx. by destruct Hxy.
Qed.

(** In the module as it is, [run] never changes the number of iterations,
    however it ends and whatever budget it was given: it creates none. *)
Theorem run_creates_no_iteration
    (fuel : nat) (env : list (EnvEvent Configuration Budget))
    (now : Time) (n_iterations : Z) (w : World') :
  length (iterations (world_of (run module_scope fuel env now n_iterations w)))
  = length (iterations w).
Proof.
  apply (writes_invariant _
           (fun w' => length (iterations w') = length (iterations w))
           _ _ (run_writes module_scope fuel env now n_iterations w)).
  - unfold latched. by destruct (time_ref w).
  - intros x y Hxy Hx. destruct Hxy; cbn; try done.
    by rewrite length_insert.
Qed.

(** However [run] ends, the jobs the dispatcher had accepted are still
    there, in order, before the ones this call submitted; the objects copied
    by earlier calls are still there, unchanged, before the ones this call
    copied; and no iteration has been removed. *)
Theorem run_only_adds
    (scope : Scope) (fuel : nat) (env : list (EnvEvent Configuration Budget))
    (now : Time) (n_iterations : Z) (w : World') :
  let w' := world_of (run scope fuel env now n_iterations w) in
  accepted (dispatcher w) `prefix_of` accepted (dispatcher w')
  /\ copies w `prefix_of` copies w'
  /\ (length (iterations w) <= length (iterations w'))%nat.
Proof.
  intros w'. subst w'.
  apply (writes_invariant _
           (fun w' => accepted (dispatcher w) `prefix_of` accepted (dispatcher w')
                      /\ copies w `prefix_of` copies w'
                      /\ (length (iterations w) <= length (iterations w'))%nat)
           _ _ (run_writes scope fuel env now n_iterations w)).
  - unfold latched. by destruct (time_ref w).
  - intros x y Hxy (Ha & Hc & Hl). destruct Hxy; cbn; try done.
    + by rewrite length_insert.
    + rewrite length_app. cbn. repeat split; try done. lia.
    + repeat split; try done. etrans; [exact Ha|]. by apply prefix_app_r.
    + repeat split; try done. etrans; [exact Hc|]. by apply prefix_app_r.
Qed.

(** ** The lock across the loop *)

Lemma scan_total (idxs : list nat) (l : Locals) (w : World') :
  (forall j, In j idxs -> (j < length (iterations w))%nat) ->
  exists l1 w1, scan idxs l w = Ret l1 w1.
Proof.
  revert l w. induction idxs as [|idx rest IH]; intros l w Hvalid; cbn [scan].
  - by exists l, w.
  - destruct (lookup_lt_is_Some_2 (iterations w) idx) as [it Hit];
      [apply Hvalid; by left|].
    rewrite Hit. destruct (get_next_run it) as [[r|] it']; [by eexists _, _|].
    apply IH. intros j Hin. cbn. rewrite length_insert. apply Hvalid. by right.
Qed.

Lemma scan_active_total (l : Locals) (w : World') :
  exists l1 w1, scan (active_iterations w) l w = Ret l1 w1.
Proof.
  apply scan_total. intros j Hin.
  apply In_active_iterations in Hin as (it & Hit & _).
  by eapply lookup_lt_Some.
Qed.

Lemma submit_job_held (t : Thread) (depth : nat)
    (next_run : Run Configuration Budget) (w : World') :
  lock_owner (thread_cond w) = Some (t, S depth) ->
  exists w',
    _submit_job t next_run w = Ret tt w'
    /\ thread_cond w' = thread_cond w.
Proof.
  intros Hown. destruct next_run as [[config_id cfg] budget].
  unfold _submit_job, with_thread_cond, cond_acquire. rewrite Hown, Nat.eqb_refl.
  cbn. rewrite Nat.eqb_refl. cbn. eexists. split; [reflexivity|]. cbn.
  destruct (thread_cond w) as [o ws]. cbn in *. by subst o.
Qed.

Lemma await_outcome (t : Thread) (depth : nat)
    (env : list (EnvEvent Configuration Budget)) (w : World') :
  match await t depth env w with
  | Ret _ w' => lock_owner (thread_cond w') = Some (t, depth)
  | Blocked _ => True
  | Raise _ _ | OutOfFuel _ => False
  end.
Proof.
  revert w. induction env as [|e env IH]; intros w; [done|].
  destruct e; cbn [await]; try apply IH.
  destruct (is_waiting t w); [apply IH|].
  destruct (num_running_jobs (end_wait t depth w)
            >? fst (job_queue_sizes (end_wait t depth w))); [apply IH|done].
Qed.

Lemma pass_lock (scope : Scope) (env : list (EnvEvent Configuration Budget))
    (l : Locals) (w : World') (depth : nat) :
  lock_owner (thread_cond w) = Some (scheduler, S depth) ->
  match pass scope env l w with
  | Ret _ w' => lock_owner (thread_cond w') = Some (scheduler, S depth)
  | Raise e w' =>
      lock_owner (thread_cond w') = Some (scheduler, S depth)
      /\ (e = UnboundLocalError \/ (e = NameError /\ scope = None))
  | Blocked _ => True
  | OutOfFuel _ => False
  end.
Proof.
  intros Hown. unfold pass, bind.
  destruct (scan_active_total l w) as (l1 & w1 & Hscan). rewrite Hscan.
  apply scan_preserves in Hscan as (_ & _ & _ & _ & Hc & _).
  rewrite <- Hc in Hown.
  destruct (l_next_run l1) as [[next_run|]|].
  - destruct (submit_job_held scheduler depth next_run w1 Hown) as (w2 & -> & Hc2).
    destruct (active_iterations w2); by rewrite Hc2.
  - destruct (l_n_iterations l1 >? 0).
    + destruct scope; cbn; [done|]. split; [done|]. right. by split.
    + unfold _queue_wait.
      destruct (num_running_jobs w1 >=? snd (job_queue_sizes w1)); [|done].
      destruct (num_running_jobs w1 >? fst (job_queue_sizes w1)); [|done].
      rewrite Hown. cbn [Nat.eqb scheduler].
      pose proof (await_outcome scheduler (S depth) env (begin_wait scheduler w1)) as Ha.
      by destruct (await scheduler (S depth) env (begin_wait scheduler w1)).
  - split; [done|]. by left.
Qed.

Lemma run_loop_lock (scope : Scope) (fuel : nat)
    (env : list (EnvEvent Configuration Budget)) (l : Locals) (w : World')
    (depth : nat) :
  lock_owner (thread_cond w) = Some (scheduler, S depth) ->
  match run_loop scope fuel env l w with
  | Ret _ w' => lock_owner (thread_cond w') = Some (scheduler, S depth)
  | Raise e w' =>
      lock_owner (thread_cond w') = Some (scheduler, S depth)
      /\ (e = UnboundLocalError \/ (e = NameError /\ scope = None))
  | Blocked _ | OutOfFuel _ => True
  end.
Proof.
  revert env l w. induction fuel as [|fuel IH]; intros env l w Hown; [done|].
  cbn [run_loop]. pose proof (pass_lock scope env l w depth Hown) as Hpass.
  destruct (pass scope env l w) as [[env' l'|] w1| | |]; try done.
  by apply IH.
Qed.


Lemma deepcopy_data_frame (ks : list nat) (w w' : World') (refs : list Ref) :
  deepcopy_data ks w = Some (refs, w') ->
  dispatcher w' = dispatcher w /\ thread_cond w' = thread_cond w.
Proof.
  revert w refs. induction ks as [|k ks IH]; intros w refs Hcopy; cbn in Hcopy.
  - by inversion Hcopy.
  - unfold deepcopy in Hcopy.
    destruct (deref w (RefIterData k)) as [o|]; [|discriminate].
    destruct (deepcopy_data ks (set_copies (copies w ++ [o]) w)) as [[rs w2]|] eqn:Hrest;
      [|discriminate].
    inversion Hcopy; subst. by apply IH in Hrest.
Qed.

(** ** How [run] ends *)

Lemma pass_break (scope : Scope) (env : list (EnvEvent Configuration Budget))
    (l : Locals) (w w2 : World') :
  pass scope env l w = Ret Break w2 ->
  active_iterations w2 = []
  /\ num_running_jobs w2 = num_running_jobs w + 1
  /\ exists job, accepted (dispatcher w2) = accepted (dispatcher w) ++ [job].
Proof.
  unfold pass, bind. intros Hpass.
  destruct (scan (active_iterations w) l w) as [l1 w1| | |] eqn:Hscan; try discriminate.
  apply scan_preserves in Hscan as (_ & _ & Hn & Hd & _).
  destruct (l_next_run l1) as [[[[config_id cfg] budget]|]|]; [| |discriminate].
  - unfold _submit_job, with_thread_cond in Hpass.
    destruct (cond_acquire scheduler (thread_cond w1)) as [c|]; [|discriminate].
    cbn in Hpass.
    match type of Hpass with
    | context [cond_release ?t ?c] => destruct (cond_release t c)
    end; [|discriminate].
    match type of Hpass with
    | context [active_iterations ?x] => destruct (active_iterations x) eqn:Hact
    end; [|discriminate].
    inversion Hpass; subst w2.
    split; [by rewrite <- Hact|]. cbn. rewrite Hn, Hd. split; [done|]. by eexists.
  - destruct (l_n_iterations l1 >? 0).
    + by destruct scope.
    + by destruct (_queue_wait scheduler env w1).
Qed.

Lemma writes_accepted (a : bool) (w w' : World') :
  rtc (write a) w w' ->
  accepted (dispatcher w) `prefix_of` accepted (dispatcher w').
Proof.
  intros Hrtc.
  apply (writes_invariant a
           (fun w' => accepted (dispatcher w) `prefix_of` accepted (dispatcher w'))
           w w' Hrtc); [done|].
  intros x y Hxy Hx. destruct Hxy; cbn; try done.
  etrans; [exact Hx|]. by apply prefix_app_r.
Qed.

Lemma run_loop_ret (scope : Scope) (fuel : nat)
    (env : list (EnvEvent Configuration Budget)) (l : Locals) (w w2 : World') :
  run_loop scope fuel env l w = Ret tt w2 ->
  active_iterations w2 = []
  /\ exists job before,
       accepted (dispatcher w2) = before ++ [job]
       /\ accepted (dispatcher w) `prefix_of` before.
Proof.
  revert env l w. induction fuel as [|fuel IH]; intros env l w Hloop; [discriminate|].
  cbn [run_loop] in Hloop.
  pose proof (pass_writes scope env l w) as Hw.
  destruct (pass scope env l w) as [[env' l'|] w1| | |] eqn:Hpass; try discriminate.
  - cbn [world_of] in Hw. apply writes_accepted in Hw.
    destruct (IH _ _ _ Hloop) as (Hact & job & before & Hacc & Hpre).
    split; [done|]. exists job, before. split; [done|]. by etrans.
  - inversion Hloop; subst w1.
    apply pass_break in Hpass as (Hact & _ & job & Hacc).
    split; [done|]. by exists job, (accepted (dispatcher w)).
Qed.

(** [run] returns only at the test of line 200, which is reached only after
    a submission: when it returns, every iteration is finished, the last job
    the dispatcher accepted was submitted by this call, and the lock has
    been given up. *)
Theorem run_returns_after_a_submission
    (scope : Scope) (fuel : nat) (env : list (EnvEvent Configuration Budget))
    (now : Time) (n_iterations : Z) (w w' : World') (res : HB_result) :
  lock_owner (thread_cond w) = None ->
  run scope fuel env now n_iterations w = Ret res w' ->
  (forall k it, iterations w' !! k = Some it -> is_finished it = true)
  /\ (exists job before,
        accepted (dispatcher w') = before ++ [job]
        /\ accepted (dispatcher w) `prefix_of` before)
  /\ lock_owner (thread_cond w') = None.
Proof.
  intros Hfree Hrun. unfold run in Hrun. fold (latched now w) in Hrun.
  assert (Hl : thread_cond (latched now w) = thread_cond w
               /\ dispatcher (latched now w) = dispatcher w)
    by (unfold latched; by destruct (time_ref w)).
  destruct Hl as [Hlc Hld].
  unfold cond_acquire in Hrun. rewrite Hlc, Hfree in Hrun.
  set (w1 := log (EvAcquire scheduler) _) in Hrun.
  pose proof (run_loop_lock scope fuel env (mkLocals None None n_iterations) w1 0)
    as Hheld.
  destruct (run_loop scope fuel env (mkLocals None None n_iterations) w1)
    as [[] w2| | |] eqn:Hloop; try discriminate.
  specialize (Hheld eq_refl). cbn in Hheld.
  apply run_loop_ret in Hloop as (Hact & job & before & Hacc & Hpre).
  unfold cond_release in Hrun. rewrite Hheld in Hrun. cbn in Hrun.
  match type of Hrun with
  | context [deepcopy_data ?ks ?x] =>
      destruct (deepcopy_data ks x) as [[refs w4]|] eqn:Hcopy
  end; [|discriminate].
  inversion Hrun; subst res w'.
  destruct (deepcopy_data_spec _ _ _ _ Hcopy) as (Hits & _).
  pose proof (deepcopy_data_frame _ _ _ _ Hcopy) as (Hd4 & Hc4).
  split; [|split].
  - intros k it Hk. rewrite Hits in Hk. cbn in Hk.
    destruct (is_finished it) eqn:Hfin; [done|].
    assert (In k (active_iterations w2)) as Hin
      by (apply In_active_iterations; by exists it).
    by rewrite Hact in Hin.
  - exists job, before. rewrite Hd4. cbn. split; [done|].
    subst w1. cbn in Hpre. by rewrite Hld in Hpre.
  - by rewrite Hc4.
Qed.


(** ** Rescaling again *)

(** A rescale starts from the operator's pair, not from the current one:
    after a report of [n] workers and then one of [m], the pair is the
    operator's shifted by [m]. *)
Theorem adjust_queue_size_not_cumulative
    (t1 t2 : Thread) (n m : Z) (w : World') :
  dynamic_queue_size w = true ->
  lock_owner (thread_cond w) = None ->
  exists w1 w2,
    adjust_queue_size t1 (Some n) w = Ret tt w1
    /\ adjust_queue_size t2 (Some m) w1 = Ret tt w2
    /\ job_queue_sizes w2
       = (fst (user_job_queue_sizes w) + m, snd (user_job_queue_sizes w) + m)
    /\ lock_owner (thread_cond w2) = None.
Proof.
  intros Hdyn Hfree.
  unfold adjust_queue_size, with_thread_cond, cond_acquire.
  rewrite Hdyn, Hfree. cbn. rewrite Nat.eqb_refl. cbn.
  eexists. eexists. split; [reflexivity|]. cbn. rewrite Hdyn. cbn.
  rewrite Nat.eqb_refl. cbn. by repeat split.
Qed.

(** With dynamic sizes on, a report of a pool large enough to lift [low] to
    the in-flight count wakes a loop that waits alone: when it gets the lock
    back it returns from [_queue_wait] with the count unchanged and the pair
    shifted. *)
Theorem queue_wait_resumes_after_rescale (t t' : Thread) (depth : nat) (n : Z)
    (rest : list (EnvEvent Configuration Budget)) (w : World') :
  lock_owner (thread_cond w) = Some (t, depth) ->
  waiters (thread_cond w) = [] ->
  dynamic_queue_size w = true ->
  snd (job_queue_sizes w) <= num_running_jobs w ->
  fst (job_queue_sizes w) < num_running_jobs w ->
  num_running_jobs w <= fst (user_job_queue_sizes w) + n ->
  exists w',
    _queue_wait t (EnvRescale t' (Some n) :: EnvResume :: rest) w = Ret rest w'
    /\ num_running_jobs w' = num_running_jobs w
    /\ job_queue_sizes w'
       = (fst (user_job_queue_sizes w) + n, snd (user_job_queue_sizes w) + n)
    /\ thread_cond w' = mkCondition (Some (t, depth)) [].
Proof.
  intros Hown Hws Hdyn Hhigh Hlow Hroom. unfold _queue_wait.
  assert ((num_running_jobs w >=? snd (job_queue_sizes w)) = true) as -> by lia.
  assert ((num_running_jobs w >? fst (job_queue_sizes w)) = true) as -> by lia.
  rewrite Hown, Nat.eqb_refl.
  cbn [await env_step].
  unfold adjust_queue_size, with_thread_cond, cond_acquire. cbn.
  rewrite Hdyn. cbn. rewrite Nat.eqb_refl. cbn.
  assert ((num_running_jobs w >? fst (user_job_queue_sizes w) + n) = false) as -> by lia.
  eexists. split; [reflexivity|]. by cbn.
Qed.

(** ** [wait_for_workers] *)

(** No call of [wait_for_workers] ever waits: the method is defined without
    [self], so a call on an object with a worker count has one positional
    argument too many and raises TypeError, as does any keyword argument
    (the only parameter is already taken by the object); and a call on an
    object without arguments raises NameError as soon as the body looks up
    [self]. In neither case is the dispatcher polled or the state changed. *)
Theorem wait_for_workers_never_waits
    (positional : nat) (keywords : list string)
    (poll : Z -> M (Configuration := Configuration) (Budget := Budget)
                   (Data := Data) (Iter := Iter) (Time := Time) unit)
    (w : World') :
  (wait_for_workers positional keywords poll w = CallTypeError
   \/ wait_for_workers positional keywords poll w = Called (Raise NameError w))
  /\ wait_for_workers 1 [] poll w = Called (Raise NameError w)
  /\ wait_for_workers (2 + positional) keywords poll w = CallTypeError
  /\ wait_for_workers (1 + positional) ("min_num_workers"%string :: keywords) poll w
     = CallTypeError
  /\ wait_for_workers positional ("min_n_workers"%string :: keywords) poll w
     = CallTypeError.
Proof.
  split; [|split; [|split; [|split]]].
  - unfold wait_for_workers, bind_arguments.
    destruct ((positional <=? length ["min_num_workers"%string])%nat
              && bind_keywords (drop positional ["min_num_workers"%string]) keywords);
      [right|left]; reflexivity.
  - reflexivity.
  - reflexivity.
  - unfold wait_for_workers, bind_arguments.
    destruct positional as [|[|p]]; reflexivity.
  - unfold wait_for_workers, bind_arguments.
    destruct positional as [|[|p]]; reflexivity.
Qed.

End Properties.

(** * Concrete runs *)

Lemma init_checks_queue_sizes_witness :
  (exists e done,
      __init__ (Configuration := Z) (Budget := Z) (Data := list (Job Z Z))
               (Iter := Scripted) (Time := Z) true 1 "."%string (1, 1) false
      = InitRaise e done
      /\ (true = true -> e = ValueError)
      /\ (EvDispatcherStart ∉ done)
      /\ (forall j, EvSubmitJob j ∉ done))
  /\ exists w,
      __init__ (Configuration := Z) (Budget := Z) (Data := list (Job Z Z))
               (Iter := Scripted) (Time := Z) true 1 "."%string (0, 1) false
      = Constructed w
      /\ job_queue_sizes w = (0, 1)
      /\ user_job_queue_sizes w = (0, 1)
      /\ num_running_jobs w = 0
      /\ iterations w = []
      /\ accepted (dispatcher w) = [].
Proof.
  split.
  - apply (init_checks_queue_sizes true 1 "."%string 1 1 false). lia.
  - apply (init_checks_queue_sizes true 1 "."%string 0 1 false); [lia | reflexivity].
Defined.

(** ** Two runnable jobs and the pair (0, 1) *)

Definition two_runs : Scripted :=
  mkScripted [((0, 0, 0), 10, 1); ((0, 0, 1), 11, 1)] 2 [] false.

(** C1: with the pair (0, 1) and one iteration that has two runnable jobs,
    [run] submits both jobs one after the other without waiting in between:
    right after the second submission two jobs are in flight, more than
    [high = 1]. Only on the next pass, when no run is left, does the loop
    wait. *)
Theorem run_submits_beyond_high :
  exists w,
    run module_scope 3 [] 100 0 (scripted_world (0, 1) false [two_runs]) = Blocked w
    /\ job_queue_sizes w = (0, 1)
    /\ num_running_jobs w = 2
    /\ trace w
       = [EvMakedirs "."%string; EvDispatcherStart; EvAcquire scheduler;
          EvGetNextRun 0;
          EvAcquire scheduler;
          EvSubmitJob (mkJob (0, 0, 0) 10 1 "."%string);
          EvRunningJobs 1;
          EvRelease scheduler;
          EvGetNextRun 0;
          EvAcquire scheduler;
          EvSubmitJob (mkJob (0, 0, 1) 11 1 "."%string);
          EvRunningJobs 2;
          EvRelease scheduler;
          EvGetNextRun 0;
          EvWait scheduler].
Proof. eexists. split; [vm_compute; reflexivity|]. by vm_compute. Qed.

(** ** One job, no budget left *)

Definition one_run : Scripted :=
  mkScripted [((0, 0, 0), 10, 1)] 1 [] false.

Definition one_run_done : list (EnvEvent Z Z) :=
  [EnvJobDone 1%nat (mkJob (0, 0, 0) 10 1 "."%string); EnvResume].

(** C2: [run] with budget 0 on one iteration that has one job. The job is
    submitted, the loop waits, the callback delivers the result and the
    iteration is finished: from the third turn on the budget is zero, every
    iteration is finished and no job is in flight, and still [run] does not
    return, however many turns of the loop it is given. *)
Theorem run_never_returns_when_done :
  (forall fuel, exists w,
      run module_scope fuel one_run_done 100 0
          (scripted_world (0, 1) false [one_run])
      = OutOfFuel w)
  /\ (forall fuel, exists w,
      run module_scope (3 + fuel) one_run_done 100 0
          (scripted_world (0, 1) false [one_run])
      = OutOfFuel w
      /\ active_iterations w = []
      /\ Forall (fun it => is_finished it = true) (iterations w)
      /\ num_running_jobs w = 0).
Proof.
  assert (Hlate : forall fuel, exists w,
      run module_scope (3 + fuel) one_run_done 100 0
          (scripted_world (0, 1) false [one_run])
      = OutOfFuel w
      /\ active_iterations w = []
      /\ Forall (fun it => is_finished it = true) (iterations w)
      /\ num_running_jobs w = 0).
  { intros fuel. unfold run. cbn -[run_loop].
    do 3 (erewrite run_loop_step by (vm_compute; reflexivity)).
    rewrite run_loop_spins; [|by vm_compute..].
    eexists. split; [reflexivity|].
    split; [by vm_compute|]. split; [|by vm_compute].
    repeat constructor. }
  split; [|exact Hlate].
  intros [|[|[|fuel]]].
  - eexists. vm_compute; reflexivity.
  - eexists. vm_compute; reflexivity.
  - eexists. vm_compute; reflexivity.
  - destruct (Hlate fuel) as (w & Hw & _). by exists w.
Qed.

(** ** The theorems at concrete inputs *)

Lemma adjust_queue_size_rescale_witness :
  exists w',
    adjust_queue_size 1%nat (Some 4) (scripted_world (0, 1) true []) = Ret tt w'
    /\ job_queue_sizes w' = (4, 5)
    /\ waiters (thread_cond w') = [].
Proof.
  destruct (adjust_queue_size_rescale 1%nat (Some 4) (scripted_world (0, 1) true []))
    as [Hon _].
  destruct Hon as (w' & Hret & Hsizes & _ & _ & Hwaiters & _);
    [reflexivity | exact I |].
  exists w'. split; [exact Hret|]. split; [exact Hsizes | exact Hwaiters].
Defined.

Definition one_submitted : World :=
  run_ops [OpSubmit scheduler ((0, 0, 0), 10, 1)]
          (scripted_world (0, 1) false [one_run]).


Definition two_in_one_out : list (Op (Configuration := Z) (Budget := Z)) :=
  [OpSubmit scheduler ((0, 0, 0), 10, 1);
   OpSubmit scheduler ((0, 0, 1), 11, 1);
   OpComplete 1%nat (mkJob (0, 0, 1) 11 1 "."%string)].

Lemma num_running_jobs_counts_witness :
  0 <= num_running_jobs
         (run_ops two_in_one_out (scripted_world (0, 1) false [two_runs]))
  /\ num_running_jobs
       (run_ops two_in_one_out (scripted_world (0, 1) false [two_runs]))
     = 1.
Proof.
  apply (num_running_jobs_counts two_in_one_out
           [OpComplete 2%nat (mkJob (0, 0, 0) 10 1 "."%string)]
           (scripted_world (0, 1) false [two_runs]));
    reflexivity.
Defined.

Lemma run_empty_iterations_unbound_witness :
  exists w',
    run module_scope 1 [] 100 3 (scripted_world (0, 1) false [])
    = Raise UnboundLocalError w'
    /\ iterations w' = []
    /\ num_running_jobs w' = 0
    /\ accepted (dispatcher w') = [].
Proof.
  destruct (run_empty_iterations_unbound module_scope 0 [] 100 3
              (scripted_world (0, 1) false []))
    as (w' & Hret & Hits & Hn & Hd & _); [reflexivity | exact I |].
  exists w'. split; [exact Hret|]. split; [exact Hits|].
  split; [exact Hn | by rewrite Hd].
Defined.

(** An iteration that has no run to give and waits for one result. *)
Definition idle : Scripted := mkScripted [] 1 [] false.

Lemma pass_new_iteration_name_error_witness :
  exists w1,
    pass module_scope [] (mkLocals None None 2) (scripted_world (0, 1) false [idle])
    = Raise NameError w1
    /\ length (iterations w1) = 1%nat.
Proof.
  destruct (pass_new_iteration_name_error [] (mkLocals None None 2)
              (mkLocals (Some None) (Some 0%nat) 2)
              (scripted_world (0, 1) false [idle])
              (world_of (scan [0%nat] (mkLocals None None 2)
                              (scripted_world (0, 1) false [idle]))))
    as (Hpass & Hlen & _).
  - vm_compute. reflexivity.
  - reflexivity.
  - reflexivity.
  - eexists. split; [exact Hpass | exact Hlen].
Defined.

(** A finished iteration that still has a run, an idle one, and two with
    runs to give. *)
Definition four_iterations : list Scripted :=
  [mkScripted [((0, 0, 0), 10, 1)] 0 [] true;
   idle;
   mkScripted [((2, 0, 0), 12, 1)] 1 [] false;
   mkScripted [((3, 0, 0), 13, 1)] 1 [] false].

Lemma pass_serves_lowest_index_witness :
  exists w1 w2 c,
    scan (active_iterations (scripted_world (0, 1) false four_iterations))
         (mkLocals None None 0) (scripted_world (0, 1) false four_iterations)
    = Ret (mkLocals (Some (Some ((2, 0, 0), 12, 1))) (Some 2%nat) 0) w1
    /\ trace w1
       = trace (scripted_world (0, 1) false four_iterations)
         ++ [EvGetNextRun 1; EvGetNextRun 2]
    /\ pass module_scope [] (mkLocals None None 0)
            (scripted_world (0, 1) false four_iterations)
       = Ret c w2
    /\ accepted (dispatcher w2) = [mkJob (2, 0, 0) 12 1 "."%string].
Proof.
  destruct (pass_serves_lowest_index module_scope [] (mkLocals None None 0)
              (scripted_world (0, 1) false four_iterations) 2
              (mkScripted [((2, 0, 0), 12, 1)] 1 [] false)
              (mkScripted [] 1 [] false) (2, 0, 0) 12 1)
    as (w1 & w2 & c & Hscan & Htrace & Hpass & _ & Hacc).
  - reflexivity.
  - reflexivity.
  - reflexivity.
  - intros [|[|j]] it_j Hj Hl Hf; cbn in Hl.
    + inversion Hl; subst it_j. discriminate Hf.
    + inversion Hl; subst it_j. reflexivity.
    + lia.
  - exact I.
  - exists w1, w2, c. split; [exact Hscan|]. split; [exact Htrace|].
    split; [exact Hpass | exact Hacc].
Defined.

(** An iteration that is finished as soon as its one run is handed out. *)
Definition fire_and_forget : Scripted :=
  mkScripted [((0, 0, 0), 10, 1)] 0 [] false.

Lemma run_returns_snapshots_witness :
  exists res w',
    run module_scope 1 [] 100 0 (scripted_world (0, 1) false [fire_and_forget])
    = Ret res w'
    /\ length (HB_iteration_data res) = length (iterations w')
    /\ HB_iteration_data res = [RefCopy 0]
    /\ HB_config res = RefConfig
    /\ config w' = mkRunConfig (Some 100).
Proof.
  eexists. eexists. split; [vm_compute; reflexivity|].
  edestruct (run_returns_snapshots module_scope 1 [] 100 0
               (scripted_world (0, 1) false [fire_and_forget]))
    as (Hlen & _ & Hcfgref & _ & Hcfg).
  - vm_compute. reflexivity.
  - split; [exact Hlen|]. split; [reflexivity|].
    split; [exact Hcfgref | exact Hcfg].
Defined.

(** ** The further properties at concrete inputs *)

Definition finished_with_run : Scripted :=
  mkScripted [((0, 0, 0), 10, 1)] 0 [] true.

Lemma scan_nothing_runnable_witness :
  exists l1 w1,
    scan (active_iterations (scripted_world (0, 1) false [finished_with_run; idle; idle]))
         (mkLocals None None 0)
         (scripted_world (0, 1) false [finished_with_run; idle; idle])
    = Ret l1 w1
    /\ l_next_run l1 = Some None
    /\ l_i l1 = Some 2%nat
    /\ trace w1
       = trace (scripted_world (0, 1) false [finished_with_run; idle; idle])
         ++ [EvGetNextRun 1; EvGetNextRun 2].
Proof.
  destruct (scan_nothing_runnable (mkLocals None None 0)
              (scripted_world (0, 1) false [finished_with_run; idle; idle]))
    as (l1 & w1 & Hscan & Hnr & Hi & Htr).
  - intros [|[|[|j]]] it_j Hl Hf; cbn in Hl; inversion Hl; subst it_j.
    + discriminate Hf.
    + reflexivity.
    + reflexivity.
  - exists l1, w1. split; [exact Hscan|]. split; [exact Hnr|].
    split; [exact Hi | exact Htr].
Defined.

Lemma run_no_active_iteration_unbound_witness :
  exists w',
    run module_scope 1 [] 100 5 (scripted_world (0, 1) false [finished_with_run])
    = Raise UnboundLocalError w'
    /\ iterations w' = [finished_with_run]
    /\ lock_owner (thread_cond w') = Some (scheduler, 1%nat).
Proof.
  destruct (run_no_active_iteration_unbound module_scope 0 [] 100 5
              (scripted_world (0, 1) false [finished_with_run]))
    as (w' & Hret & Hits & _ & _ & Hlock & _); [reflexivity | reflexivity |].
  exists w'. split; [exact Hret|]. split; [exact Hits | exact Hlock].
Defined.

Lemma job_callback_unknown_iteration_witness :
  exists w',
    job_callback 1%nat (mkJob (5, 0, 0) 10 1 "."%string) one_submitted
    = Raise IndexError w'
    /\ num_running_jobs w' = 0
    /\ iterations w' = [one_run].
Proof.
  destruct (job_callback_unknown_iteration 1%nat (mkJob (5, 0, 0) 10 1 "."%string)
              one_submitted)
    as (w' & Hret & Hn & Hits & _); [left; vm_compute; discriminate | reflexivity |].
  exists w'. split; [exact Hret|]. split; [exact Hn | exact Hits].
Defined.

Lemma job_callback_negative_index_witness :
  exists w',
    job_callback 1%nat (mkJob (-1, 0, 0) 10 1 "."%string)
                 (scripted_world (0, 1) false [idle; one_run])
    = Ret tt w'
    /\ iterations w'
       = [idle;
          scripted_register_result (mkJob (-1, 0, 0) 10 1 "."%string) one_run].
Proof.
  destruct (job_callback_negative_index 1%nat (mkJob (-1, 0, 0) 10 1 "."%string)
              (scripted_world (0, 1) false [idle; one_run]) one_run)
    as (w' & Hret & Hits & _);
    [vm_compute; split; [discriminate | reflexivity] | reflexivity | reflexivity |].
  exists w'. split; [exact Hret | exact Hits].
Defined.

Lemma methods_give_the_lock_back_witness :
  lock_owner (thread_cond
                (world_of (job_callback 1%nat (mkJob (0, 0, 0) 10 1 "."%string)
                                        one_submitted)))
  = None.
Proof.
  destruct (methods_give_the_lock_back 1%nat ((0, 0, 0), 10, 1)
              (mkJob (0, 0, 0) 10 1 "."%string) None one_submitted)
    as (_ & (_ & Hlock) & _); [exact I | exact I |].
  exact Hlock.
Defined.

(** The loop's thread holds the lock, one job is in flight, the pair is
    (0, 1). *)
Definition busy (dynamic : bool) : World :=
  set_thread_cond (mkCondition (Some (scheduler, 1%nat)) [])
    (run_ops [OpSubmit scheduler ((0, 0, 0), 10, 1)]
             (scripted_world (0, 1) dynamic [one_run])).

Lemma queue_wait_returns_drained_witness :
  num_running_jobs (world_of (_queue_wait scheduler one_run_done (busy false)))
  <= fst (job_queue_sizes (world_of (_queue_wait scheduler one_run_done (busy false)))).
Proof.
  destruct (queue_wait_returns_drained scheduler one_run_done [] (busy false)
              (world_of (_queue_wait scheduler one_run_done (busy false))))
    as [(_ & _ & [Hlt|Hle]) | (Hn & _)].
  - vm_compute. reflexivity.
  - vm_compute in Hlt. discriminate Hlt.
  - vm_compute in Hle. contradiction Hle. reflexivity.
  - exact Hn.
Defined.

Lemma queue_wait_sleeps_without_completion_witness :
  exists w',
    _queue_wait scheduler [EnvPool 3; EnvResume; EnvRescale 1%nat (Some 4)] (busy false)
    = Blocked w'
    /\ num_running_jobs w' = 1
    /\ is_waiting scheduler w' = true.
Proof.
  destruct (queue_wait_sleeps_without_completion scheduler 1
              [EnvPool 3; EnvResume; EnvRescale 1%nat (Some 4)] (busy false))
    as (w' & Hret & Hn & Hw & _);
    [reflexivity | vm_compute; discriminate | reflexivity | reflexivity |].
  exists w'. split; [exact Hret|]. split; [exact Hn | exact Hw].
Defined.



Lemma run_returns_after_a_submission_witness :
  exists res w',
    run module_scope 1 [] 100 0 (scripted_world (0, 1) false [fire_and_forget])
    = Ret res w'
    /\ (forall k it, iterations w' !! k = Some it -> is_finished it = true)
    /\ lock_owner (thread_cond w') = None.
Proof.
  eexists. eexists. split; [vm_compute; reflexivity|].
  edestruct (run_returns_after_a_submission module_scope 1 [] 100 0
               (scripted_world (0, 1) false [fire_and_forget]))
    as (Hfin & _ & Hlock).
  - reflexivity.
  - vm_compute. reflexivity.
  - split; [exact Hfin | exact Hlock].
Defined.


Lemma adjust_queue_size_not_cumulative_witness :
  exists w1 w2,
    adjust_queue_size 1%nat (Some 4) (scripted_world (0, 1) true []) = Ret tt w1
    /\ adjust_queue_size 2%nat (Some 2) w1 = Ret tt w2
    /\ job_queue_sizes w2 = (2, 3).
Proof.
  destruct (adjust_queue_size_not_cumulative 1%nat 2%nat 4 2
              (scripted_world (0, 1) true []))
    as (w1 & w2 & H1 & H2 & Hs & _); [reflexivity | reflexivity |].
  exists w1, w2. split; [exact H1|]. split; [exact H2 | exact Hs].
Defined.

Lemma queue_wait_resumes_after_rescale_witness :
  exists w',
    _queue_wait scheduler [EnvRescale 1%nat (Some 4); EnvResume] (busy true)
    = Ret [] w'
    /\ num_running_jobs w' = 1
    /\ job_queue_sizes w' = (4, 5).
Proof.
  destruct (queue_wait_resumes_after_rescale scheduler 1%nat 1 4 [] (busy true))
    as (w' & Hret & Hn & Hs & _);
    [reflexivity | reflexivity | reflexivity | vm_compute; discriminate
     | reflexivity | vm_compute; discriminate |].
  exists w'. split; [exact Hret|]. split; [exact Hn | exact Hs].
Defined.
